(** * Universe Scoring Engine of [app.py]

    A shallow embedding of the scoring pipeline of the multi-factor stock
    recommender: the deterministic factor simulator [mock_factor_score], the
    quote adapter [get_naver_finance_prices], the universe builder
    [fetch_universe] with its listing helpers, the weight handling around the
    fenced JSON block, and the ranking function [score_and_recommend].

    Python [int] is [Z]; Python [float] is IEEE-754 binary64, taken from the
    standard library's executable specification [SpecFloat]; a Python [str]
    is the string of its UTF-8 bytes; exceptions are an explicit [result]
    type; the network is a record of responses. *)

From Stdlib Require Import ZArith List String Ascii Bool Lia SpecFloat.
From Stdlib Require Import Permutation Sorted.
Import ListNotations.

Local Open Scope Z_scope.

(* ================================================================== *)
(** ** Python floats: binary64 *)

Module F64.

Definition prec : Z := 53.
Definition emax : Z := 1024.

Definition float : Type := spec_float.

Definition nan : float := S754_nan.
Definition zero : float := S754_zero false.

Definition add : float -> float -> float := SFadd prec emax.
Definition sub : float -> float -> float := SFsub prec emax.
Definition mul : float -> float -> float := SFmul prec emax.
Definition div : float -> float -> float := SFdiv prec emax.

Definition ltb : float -> float -> bool := SFltb.
Definition leb : float -> float -> bool := SFleb.
Definition eqb : float -> float -> bool := SFeqb.

Definition is_nan (x : float) : bool :=
  match x with S754_nan => true | _ => false end.

Definition is_inf (x : float) : bool :=
  match x with S754_infinity _ => true | _ => false end.

(** [float(n)] for an [int]: the nearest double, ties to even; an
    infinite result stands for Python's [OverflowError]. *)
Definition of_int (n : Z) : float := binary_normalize prec emax n 0 false.

(** The integer [n] as an unrounded operand [n * 2^0] of a division. *)
Definition raw_int (n : Z) : float :=
  match n with
  | Z0 => S754_zero false
  | Zpos p => S754_finite false p 0
  | Zneg p => S754_finite true p 0
  end.

(** The correctly rounded quotient of two integers, as [int / int]
    computes it (one rounding of the exact quotient). *)
Definition div_int (a b : Z) : float := div (raw_int a) (raw_int b).

(** A literal with one decimal, [n/10]: what the parser makes of the
    source text [33.3], [15.0], ... *)
Definition tenths (n : Z) : float := div_int n 10.

(** [round(x, 1)]: the exact value of [x] is rounded to one decimal, ties
    to even, and the decimal is converted back to the nearest double.
    Infinities and NaN round to themselves; a zero keeps its sign. *)
Definition round_half_even (num den : Z) : Z :=
  let (k, r) := Z.div_eucl num den in
  match 2 * r ?= den with
  | Lt => k
  | Gt => k + 1
  | Eq => if Z.even k then k else k + 1
  end.

Definition round1 (x : float) : float :=
  match x with
  | S754_finite s m e =>
      if 0 <=? e then x
      else
        match round_half_even (10 * Zpos m) (2 ^ (- e)) with
        | Zpos n => div (S754_finite s n 0) (S754_finite false 10 0)
        | _ => S754_zero s
        end
  | _ => x
  end.

(** Python's two-argument [min(a, b)]: [b] only when [b < a]. *)
Definition min (a b : float) : float := if ltb b a then b else a.

End F64.

(* ================================================================== *)
(** ** [hashlib.md5] *)

Module MD5.

Definition mask32 (x : Z) : Z := x mod 2 ^ 32.
Definition not32 (x : Z) : Z := Z.lxor x 0xffffffff.
Definition rotl32 (x c : Z) : Z :=
  Z.lor (mask32 (Z.shiftl x c)) (Z.shiftr x (32 - c)).

(** Per-round shift amounts and the sine-derived constants. *)
Definition shifts : list Z :=
  [7; 12; 17; 22; 7; 12; 17; 22; 7; 12; 17; 22; 7; 12; 17; 22;
   5; 9; 14; 20; 5; 9; 14; 20; 5; 9; 14; 20; 5; 9; 14; 20;
   4; 11; 16; 23; 4; 11; 16; 23; 4; 11; 16; 23; 4; 11; 16; 23;
   6; 10; 15; 21; 6; 10; 15; 21; 6; 10; 15; 21; 6; 10; 15; 21].

Definition K : list Z :=
  [0xd76aa478; 0xe8c7b756; 0x242070db; 0xc1bdceee;
   0xf57c0faf; 0x4787c62a; 0xa8304613; 0xfd469501;
   0x698098d8; 0x8b44f7af; 0xffff5bb1; 0x895cd7be;
   0x6b901122; 0xfd987193; 0xa679438e; 0x49b40821;
   0xf61e2562; 0xc040b340; 0x265e5a51; 0xe9b6c7aa;
   0xd62f105d; 0x02441453; 0xd8a1e681; 0xe7d3fbc8;
   0x21e1cde6; 0xc33707d6; 0xf4d50d87; 0x455a14ed;
   0xa9e3e905; 0xfcefa3f8; 0x676f02d9; 0x8d2a4c8a;
   0xfffa3942; 0x8771f681; 0x6d9d6122; 0xfde5380c;
   0xa4beea44; 0x4bdecfa9; 0xf6bb4b60; 0xbebfbc70;
   0x289b7ec6; 0xeaa127fa; 0xd4ef3085; 0x04881d05;
   0xd9d4d039; 0xe6db99e5; 0x1fa27cf8; 0xc4ac5665;
   0xf4292244; 0x432aff97; 0xab9423a7; 0xfc93a039;
   0x655b59c3; 0x8f0ccc92; 0xffeff47d; 0x85845dd1;
   0x6fa87e4f; 0xfe2ce6e0; 0xa3014314; 0x4e0811a1;
   0xf7537e82; 0xbd3af235; 0x2ad7d2bb; 0xeb86d391].

Record state := { sa : Z; sb : Z; sc : Z; sd : Z }.

Definition init : state :=
  {| sa := 0x67452301; sb := 0xefcdab89; sc := 0x98badcfe; sd := 0x10325476 |}.

(** One of the 64 operations on a block of sixteen words [M]. *)
Definition step (M : list Z) (st : state) (i : nat) : state :=
  let '(Build_state a b c d) := st in
  let iz := Z.of_nat i in
  let '(f, g) :=
    if iz <? 16 then (Z.lor (Z.land b c) (Z.land (not32 b) d), iz)
    else if iz <? 32 then
      (Z.lor (Z.land d b) (Z.land (not32 d) c), (5 * iz + 1) mod 16)
    else if iz <? 48 then (Z.lxor (Z.lxor b c) d, (3 * iz + 5) mod 16)
    else (Z.lxor c (Z.lor b (not32 d)), (7 * iz) mod 16) in
  let f' := mask32 (f + a + nth i K 0 + nth (Z.to_nat g) M 0) in
  {| sa := d; sb := mask32 (b + rotl32 f' (nth i shifts 0)); sc := b; sd := c |}.

Definition compress (st : state) (M : list Z) : state :=
  let r := fold_left (step M) (seq 0 64) st in
  {| sa := mask32 (sa st + sa r); sb := mask32 (sb st + sb r);
     sc := mask32 (sc st + sc r); sd := mask32 (sd st + sd r) |}.

(** Little-endian bytes of a number, and back. *)
Fixpoint le_bytes (n : nat) (x : Z) : list Z :=
  match n with
  | O => []
  | S n' => x mod 256 :: le_bytes n' (x / 256)
  end.

Fixpoint le_word (bs : list Z) : Z :=
  match bs with
  | [] => 0
  | b :: bs' => b + 256 * le_word bs'
  end.

Definition be_int (bs : list Z) : Z :=
  fold_left (fun acc b => 256 * acc + b) bs 0.

(** The message followed by [0x80], zeros up to 56 modulo 64, and its
    length in bits on eight bytes. *)
Definition pad (msg : list Z) : list Z :=
  let len := Z.of_nat (List.length msg) in
  let zeros := Z.to_nat ((55 - len) mod 64) in
  msg ++ [0x80] ++ repeat 0 zeros ++ le_bytes 8 ((8 * len) mod 2 ^ 64).

Fixpoint chunks (fuel : nat) (n : nat) (bs : list Z) : list (list Z) :=
  match fuel, bs with
  | O, _ | _, [] => []
  | S fuel', _ => firstn n bs :: chunks fuel' n (skipn n bs)
  end.

Definition blocks (bs : list Z) : list (list Z) :=
  map (fun blk => map le_word (chunks 16 4 blk)) (chunks (List.length bs) 64 bs).

Definition digest (msg : list Z) : list Z :=
  let st := fold_left compress (blocks (pad msg)) init in
  le_bytes 4 (sa st) ++ le_bytes 4 (sb st) ++ le_bytes 4 (sc st) ++ le_bytes 4 (sd st).

(** [int(hashlib.md5(msg).hexdigest(), 16)]. *)
Definition hexdigest_int (msg : list Z) : Z := be_int (digest msg).

End MD5.

(** [str.encode()]: a [string] is held as its UTF-8 bytes. *)
Definition encode (s : string) : list Z :=
  map (fun c => Z.of_nat (nat_of_ascii c)) (list_ascii_of_string s).

(* ================================================================== *)
(** ** The factor simulator *)

Definition mock_factor_score (ticker seed_str : string) : Z :=
  let hash_val := MD5.hexdigest_int (encode (ticker ++ "_" ++ seed_str)%string) in
  40 + hash_val mod 61.

(* ================================================================== *)
(** ** Python values, exceptions *)

Inductive exn : Type :=
| TypeError
| AttributeError
| KeyError
| OverflowError
| ZeroDivisionError
| RequestException.

Inductive result (A : Type) : Type :=
| Ok (a : A)
| Raise (e : exn).

Arguments Ok {A} a.
Arguments Raise {A} e.

Definition bind {A B : Type} (m : result A) (k : A -> result B) : result B :=
  match m with
  | Ok a => k a
  | Raise e => Raise e
  end.

Notation "x <- m ;; k" := (bind m (fun x => k))
  (at level 61, m at next level, right associativity).

(** What [json.loads] can return. *)
#[local] Unset Elimination Schemes.
Inductive pyval : Type :=
| PNone
| PBool (b : bool)
| PInt (n : Z)
| PFloat (x : F64.float)
| PStr (s : string)
| PList (l : list pyval)
| PDict (d : list (string * pyval)).
#[local] Set Elimination Schemes.

(** [d.get(key, default)] on a dict held as its items. *)
Fixpoint dict_get (d : list (string * pyval)) (key : string) (default : pyval)
  : pyval :=
  match d with
  | [] => default
  | (k, v) :: d' => if String.eqb k key then v else dict_get d' key default
  end.

(** [obj.get(key, default)]: only a dict has the method. *)
Definition py_get (obj : pyval) (key : string) (default : pyval) : result pyval :=
  match obj with
  | PDict d => Ok (dict_get d key default)
  | _ => Raise AttributeError
  end.

(** The left operand of [v / 100.0] as a float. *)
Definition as_float (v : pyval) : result F64.float :=
  match v with
  | PFloat x => Ok x
  | PInt n =>
      let x := F64.of_int n in
      if F64.is_inf x then Raise OverflowError else Ok x
  | PBool b => Ok (F64.of_int (if b then 1 else 0))
  | _ => Raise TypeError
  end.

Definition truediv_float (v : pyval) (y : F64.float) : result F64.float :=
  x <- as_float v ;; Ok (F64.div x y).

(** [a / b] on two ints. *)
Definition truediv_int (a b : Z) : result F64.float :=
  if b =? 0 then Raise ZeroDivisionError
  else
    let q := F64.div_int a b in
    if F64.is_inf q then Raise OverflowError else Ok q.

(* ------------------------------------------------------------------ *)
(** *** Texts, [s.strip()] and [int(s)] *)

(** A text is held as the UTF-8 bytes of its characters.  [chars] splits
    the bytes into characters, each with its code point; a byte that
    starts no well-formed sequence stands alone, with the code point that
    [surrogateescape] gives it, which is no blank and no digit. *)
Record uchar : Type := { code : Z; bytes : list ascii }.

Definition byte_of (c : ascii) : Z := Z.of_nat (nat_of_ascii c).

Definition is_cont (b : Z) : bool := (128 <=? b) && (b <=? 191).

Definition alone (c : ascii) : uchar :=
  {| code := 56320 + byte_of c; bytes := [c] |}.

Fixpoint chars (bs : list ascii) : list uchar :=
  match bs with
  | [] => []
  | c0 :: bs1 =>
      let b0 := byte_of c0 in
      if b0 <? 128 then {| code := b0; bytes := [c0] |} :: chars bs1
      else
        match bs1 with
        | [] => alone c0 :: chars bs1
        | c1 :: bs2 =>
            let b1 := byte_of c1 in
            if (194 <=? b0) && (b0 <=? 223) then
              if is_cont b1
              then {| code := (b0 - 192) * 64 + (b1 - 128);
                      bytes := [c0; c1] |} :: chars bs2
              else alone c0 :: chars bs1
            else
              match bs2 with
              | [] => alone c0 :: chars bs1
              | c2 :: bs3 =>
                  let b2 := byte_of c2 in
                  if (224 <=? b0) && (b0 <=? 239) then
                    let cp := ((b0 - 224) * 64 + (b1 - 128)) * 64 + (b2 - 128) in
                    if is_cont b1 && is_cont b2 && (2048 <=? cp)
                       && negb ((55296 <=? cp) && (cp <=? 57343))
                    then {| code := cp; bytes := [c0; c1; c2] |} :: chars bs3
                    else alone c0 :: chars bs1
                  else
                    match bs3 with
                    | [] => alone c0 :: chars bs1
                    | c3 :: bs4 =>
                        let b3 := byte_of c3 in
                        let cp := (((b0 - 240) * 64 + (b1 - 128)) * 64
                                   + (b2 - 128)) * 64 + (b3 - 128) in
                        if (240 <=? b0) && (b0 <=? 244)
                           && is_cont b1 && is_cont b2 && is_cont b3
                           && (65536 <=? cp) && (cp <=? 1114111)
                        then {| code := cp; bytes := [c0; c1; c2; c3] |}
                             :: chars bs4
                        else alone c0 :: chars bs1
                    end
              end
        end
  end.

Definition chars_of (s : string) : list uchar := chars (list_ascii_of_string s).

Definition text_of (cs : list uchar) : string :=
  string_of_list_ascii (flat_map bytes cs).

(** [ch.isspace()], the interpreter's [Py_UNICODE_ISSPACE]. *)
Definition is_space (cp : Z) : bool :=
  ((9 <=? cp) && (cp <=? 13)) || ((28 <=? cp) && (cp <=? 32))
  || (cp =? 133) || (cp =? 160) || (cp =? 5760)
  || ((8192 <=? cp) && (cp <=? 8202))
  || (cp =? 8232) || (cp =? 8233) || (cp =? 8239) || (cp =? 8287)
  || (cp =? 12288).

Fixpoint lstrip (cs : list uchar) : list uchar :=
  match cs with
  | c :: cs' => if is_space (code c) then lstrip cs' else cs
  | [] => []
  end.

Definition strip_chars (cs : list uchar) : list uchar :=
  rev (lstrip (rev (lstrip cs))).

(** [s.strip()]. *)
Definition strip (s : string) : string := text_of (strip_chars (chars_of s)).

(** [s.replace(',', '')]. *)
Definition remove_commas (s : string) : string :=
  string_of_list_ascii
    (filter (fun c => negb (Ascii.eqb c ","%char)) (list_ascii_of_string s)).

(** The code points of the digit zero of every decimal script (Unicode
    14.0, the version of the interpreter 3.11); the nine code points
    after each are its digits one to nine. *)
Definition decimal_zeros : list Z :=
  [48; 1632; 1776; 1984; 2406; 2534; 2662; 2790; 2918; 3046; 3174; 3302;
   3430; 3558; 3664; 3792; 3872; 4160; 4240; 6112; 6160; 6470; 6608; 6784;
   6800; 6992; 7088; 7232; 7248; 42528; 43216; 43264; 43472; 43504; 43600;
   44016; 65296; 66720; 68912; 69734; 69872; 69942; 70096; 70384; 70736;
   70864; 71248; 71360; 71472; 71904; 72016; 72784; 73040; 73120; 92768;
   92864; 93008; 120782; 120792; 120802; 120812; 120822; 123200; 123632;
   125264; 130032].

(** [Py_UNICODE_TODECIMAL]. *)
Definition to_decimal (cp : Z) : option Z :=
  match find (fun zero => (zero <=? cp) && (cp <=? zero + 9)) decimal_zeros with
  | Some zero => Some (cp - zero)
  | None => None
  end.

(** What [int] does to a text before it reads it: an ASCII text is taken
    as it is; in another text the blanks become spaces and the decimal
    digits ASCII digits, and the text is cut after a question mark put
    for the first character that is neither. *)
Fixpoint to_ascii (cs : list Z) : list Z :=
  match cs with
  | [] => []
  | cp :: cs' =>
      if cp <? 127 then cp :: to_ascii cs'
      else if is_space cp then 32 :: to_ascii cs'
      else
        match to_decimal cp with
        | Some d => (48 + d) :: to_ascii cs'
        | None => [63]
        end
  end.

Definition transform (cs : list Z) : list Z :=
  if forallb (fun cp => cp <? 128) cs then cs else to_ascii cs.

(** [Py_ISSPACE], the blanks that the reader of the number skips at both
    ends. *)
Definition is_c_space (c : Z) : bool := ((9 <=? c) && (c <=? 13)) || (c =? 32).

Fixpoint skip_spaces (cs : list Z) : list Z :=
  match cs with
  | c :: cs' => if is_c_space c then skip_spaces cs' else cs
  | [] => []
  end.

Definition is_digit (c : Z) : bool := (48 <=? c) && (c <=? 57).

Definition digit_value (c : Z) : Z := c - 48.

(** Digits with single underscores between them; the number of digits is
    returned with the value. *)
Fixpoint digits (cs : list Z) (after_digit : bool) (acc : Z) (count : nat)
  : option (Z * nat) :=
  match cs with
  | [] => if after_digit then Some (acc, count) else None
  | c :: cs' =>
      if is_digit c then digits cs' true (10 * acc + digit_value c) (S count)
      else if c =? 95 then
        if after_digit then digits cs' false acc count else None
      else None
  end.

(** The interpreter's limit on the digits of a decimal string. *)
Definition max_str_digits : nat := 4300.

(** [int(s)]; [None] stands for [ValueError].  The blanks at both ends
    are skipped, a sign may come first, and the rest is digits. *)
Definition py_int (s : string) : option Z :=
  let cs := skip_spaces (transform (map code (chars_of s))) in
  let '(neg, body) :=
    match cs with
    | c :: cs' =>
        if c =? 45 then (true, cs')
        else if c =? 43 then (false, cs')
        else (false, cs)
    | [] => (false, [])
    end in
  match digits (rev (skip_spaces (rev body))) false 0 0 with
  | Some (n, count) =>
      if (max_str_digits <? count)%nat then None
      else Some (if neg then - n else n)
  | None => None
  end.

(* ================================================================== *)
(** ** The quote adapter *)

(** What the scraper reads off a quote page: [no_today] is the text of the
    element selected by ['.no_today .blind'] ([None] when nothing is
    selected); [target_ems] holds the texts of the [em] tags under the
    parent of the first [th] whose string contains the target-price
    label ([None] when there is no such [th]). *)
Record quote_page : Type := {
  no_today : option string;
  target_ems : option (list string)
}.

Record quote : Type := {
  current_price : Z;
  target_price : Z;
  upside : F64.float
}.

Definition zero_quote : quote :=
  {| current_price := 0; target_price := 0; upside := F64.zero |}.

Definition quote_url (ticker : string) : string :=
  ("https://finance.naver.com/item/main.naver?code=" ++ ticker)%string.

(** [int(tag.text.replace(',',''))] under [try: ... except: pass], the
    variable keeping its initial [0] on failure. *)
Definition price_of_text (text : string) : Z :=
  match py_int (remove_commas text) with
  | Some n => n
  | None => 0
  end.

Section Quotes.

(** [requests.get(url, ..., timeout=3)] followed by the parse of the
    page; [Raise] is any exception on the way. *)
Variable requests_get : string -> result quote_page.

Definition get_naver_finance_prices (ticker : string) : quote :=
  let attempt : result quote :=
    page <- requests_get (quote_url ticker) ;;
    let current_price :=
      match no_today page with
      | Some text => price_of_text text
      | None => 0
      end in
    let target_price :=
      match target_ems page with
      | Some em_tags =>
          if (1 <? List.length em_tags)%nat
          then price_of_text (nth 1 em_tags EmptyString)
          else 0
      | None => 0
      end in
    upside <-
      (if (0 <? current_price) && (current_price <? target_price)
       then
         ratio <- truediv_int target_price current_price ;;
         Ok (F64.mul (F64.sub ratio (F64.of_int 1)) (F64.of_int 100))
       else Ok F64.zero) ;;
    Ok {| current_price := current_price;
          target_price := target_price;
          upside := F64.round1 upside |} in
  match attempt with
  | Ok q => q
  | Raise _ => zero_quote
  end.

End Quotes.

(* ================================================================== *)
(** ** The universe builder *)

Record instrument : Type := { Ticker : string; Name : string }.

(** A link: its text and its [href] attribute, when it has one. *)
Record a_tag : Type := { a_text : string; a_href : option string }.

(** A table row: how many [td] cells it has and the first link of the
    second cell. *)
Record tr : Type := { tds : nat; td1_a : option a_tag }.

(** A market listing page: no [table.type_2], a table without [tbody], or
    the rows of the body. *)
Inductive listing_page : Type :=
| NoTable
| NoTbody
| Tbody (trs : list tr).

(** An item of the fund list. *)
Record etf_item : Type := {
  marketSum : option Z;
  itemcode : option string;
  itemname : option string
}.

(** The three remote sources. *)
Record world : Type := {
  quote_response : string -> result quote_page;
  listing_response : Z -> Z -> result listing_page;
  etf_response : result (list etf_item)
}.

(** The suffix after the last occurrence of [sep], if [sep] occurs. *)
Fixpoint strip_prefix (sep s : string) : option string :=
  match sep, s with
  | EmptyString, _ => Some s
  | String a sep', String b s' =>
      if Ascii.eqb a b then strip_prefix sep' s' else None
  | String _ _, EmptyString => None
  end.

Fixpoint after_last (sep s : string) : option string :=
  match s with
  | EmptyString => None
  | String _ s' =>
      match after_last sep s' with
      | Some rest => Some rest
      | None => strip_prefix sep s
      end
  end.

(** [href.split('code=')[-1]]. *)
Definition split_code_last (href : string) : string :=
  match after_last "code=" href with
  | Some rest => rest
  | None => href
  end.

(** [df.head(n)]. *)
Definition head {A : Type} (n : Z) (l : list A) : list A :=
  if 0 <=? n then firstn (Z.to_nat n) l
  else firstn (List.length l - Z.to_nat (- n)) l.

Definition len {A : Type} (l : list A) : Z := Z.of_nat (List.length l).

Section Universe.

Variable W : world.

(** The [for tr in trs] loop; it stops at the [break]. *)
Fixpoint scan_rows (trs : list tr) (limit : Z) (data : list instrument)
  : result (list instrument) :=
  match trs with
  | [] => Ok data
  | row :: trs' =>
      if (2 <? tds row)%nat then
        match td1_a row with
        | Some a =>
            let name := strip (a_text a) in
            match a_href a with
            | Some href =>
                let ticker := split_code_last href in
                let data' := data ++ [{| Ticker := ticker; Name := name |}] in
                if limit <=? len data' then Ok data'
                else scan_rows trs' limit data'
            | None => Raise KeyError
            end
        | None => scan_rows trs' limit data
        end
      else scan_rows trs' limit data
  end.

(** The [while len(data) < limit and page <= 5] loop, [pages_left]
    counting the pages from [page] to 5. *)
Fixpoint scan_pages (pages_left : nat) (sosok page limit : Z)
  (data : list instrument) : result (list instrument) :=
  match pages_left with
  | O => Ok data
  | S pages_left' =>
      if len data <? limit then
        res <- listing_response W sosok page ;;
        match res with
        | NoTable => Ok data
        | NoTbody => Raise AttributeError
        | Tbody trs =>
            data' <- scan_rows trs limit data ;;
            scan_pages pages_left' sosok (page + 1) limit data'
        end
      else Ok data
  end.

Definition get_naver_top_cap (market : string) (limit : Z)
  : result (list instrument) :=
  let sosok := if String.eqb market "KOSPI" then 0 else 1 in
  scan_pages 5 sosok 1 limit [].

(** [sorted(etf_list, key=marketSum, reverse=True)]: stable, largest
    first. *)
Definition market_sum (item : etf_item) : Z :=
  match marketSum item with Some n => n | None => 0 end.

Fixpoint insert_desc (x : etf_item) (l : list etf_item) : list etf_item :=
  match l with
  | [] => [x]
  | y :: l' =>
      if market_sum x <? market_sum y then y :: insert_desc x l'
      else x :: l
  end.

Definition sorted_desc (l : list etf_item) : list etf_item :=
  fold_right insert_desc [] l.

(** The [for idx, item in enumerate(etf_list)] loop; a missing key ends
    it through the handler with what was collected. *)
Fixpoint etf_rows (items : list etf_item) (idx limit : Z)
  (data : list instrument) : list instrument :=
  match items with
  | [] => data
  | item :: items' =>
      if limit <=? idx then data
      else
        match itemcode item, itemname item with
        | Some code, Some name =>
            etf_rows items' (idx + 1) limit
              (data ++ [{| Ticker := code; Name := name |}])
        | _, _ => data
        end
  end.

Definition get_naver_etf_top_cap (limit : Z) : list instrument :=
  match etf_response W with
  | Ok etf_list => etf_rows (sorted_desc etf_list) 0 limit []
  | Raise _ => []
  end.

Definition fetch_universe (market : string) (limit : Z)
  : result (list instrument) :=
  if String.eqb market "ETF" then Ok (get_naver_etf_top_cap limit)
  else if String.eqb market "코스피" then get_naver_top_cap "KOSPI" limit
  else if String.eqb market "코스닥" then get_naver_top_cap "KOSDAQ" limit
  else
    df1 <- get_naver_top_cap "KOSPI" limit ;;
    df2 <- get_naver_top_cap "KOSDAQ" limit ;;
    Ok (head limit (df1 ++ df2)).

End Universe.

(* ================================================================== *)
(** ** The weights read from the report *)

(** The fenced block of the report: [NoBlock] when the pattern does not
    match, otherwise what [json.loads] makes of the captured text. *)
Inductive json_block : Type :=
| NoBlock
| Block (loads : result pyval).

Definition default_weights : pyval :=
  PDict [("Momentum"%string, PFloat (F64.tenths 333));
         ("Value"%string, PFloat (F64.tenths 333));
         ("Quality"%string, PFloat (F64.tenths 334))].

(** The statements between the pattern search and the call of the
    pipeline.  The assignment of the parsed value comes before the
    message that reads it, so a parsed value that is not a dict is kept
    although the handler runs.  The boolean tells whether the warning was
    shown. *)
Definition weights_of_block (json_match : json_block) : pyval * bool :=
  match json_match with
  | NoBlock => (default_weights, true)
  | Block (Raise _) => (default_weights, true)
  | Block (Ok parsed) =>
      match py_get parsed "Momentum" (PInt 0) with
      | Ok _ => (parsed, false)
      | Raise _ => (parsed, true)
      end
  end.

(** The three fractions computed at the head of the pipeline. *)
Definition weight_fractions (weights : pyval)
  : result (F64.float * F64.float * F64.float) :=
  m <- py_get weights "Momentum" (PFloat (F64.tenths 333)) ;;
  w_m <- truediv_float m (F64.of_int 100) ;;
  v <- py_get weights "Value" (PFloat (F64.tenths 333)) ;;
  w_v <- truediv_float v (F64.of_int 100) ;;
  q <- py_get weights "Quality" (PFloat (F64.tenths 334)) ;;
  w_q <- truediv_float q (F64.of_int 100) ;;
  Ok (w_m, w_v, w_q).

(* ================================================================== *)
(** ** Sorting a frame by a float column *)

(** The array sort under [sort_values]: an argsort of floats without
    NaN.  The default kind is a quicksort, of which only the result's
    order is known: it is a permutation of the positions that lists the
    values in ascending order; equal values come in any order. *)
Record Argsort : Type := {
  argsort : list F64.float -> list nat;
  argsort_perm : forall l, Permutation (argsort l) (seq 0 (List.length l));
  argsort_sorted : forall l,
    forallb (fun x => negb (F64.is_nan x)) l = true ->
    Sorted (fun a b => F64.leb a b = true)
           (map (fun i => nth i l F64.nan) (argsort l))
}.

(** Two array sorts that meet this description, both by insertion of the
    keyed positions from the right: with [stable] an element goes before
    the later elements of equal value, without it after them. *)
Fixpoint insert_key (stable : bool) (p : nat * F64.float)
  (l : list (nat * F64.float)) : list (nat * F64.float) :=
  match l with
  | [] => [p]
  | q :: l' =>
      if (if stable then F64.leb (snd p) (snd q) else F64.ltb (snd p) (snd q))
      then p :: l
      else q :: insert_key stable p l'
  end.

Definition insertion_argsort (stable : bool) (l : list F64.float) : list nat :=
  map fst (fold_right (insert_key stable) [] (combine (seq 0 (List.length l)) l)).

(** The indexer of a descending sort with missing values last: the
    numbers are reversed, sorted in ascending order, and the result is
    reversed again; the positions holding NaN follow. *)
Definition nargsort_desc (A : Argsort) (items : list F64.float) : list nat :=
  let idx := seq 0 (List.length items) in
  let keyed := combine idx items in
  let kept := filter (fun p => negb (F64.is_nan (snd p))) keyed in
  let nan_idx := map fst (filter (fun p => F64.is_nan (snd p)) keyed) in
  let non_nans := rev (map snd kept) in
  let non_nan_idx := rev (map fst kept) in
  let indexer := map (fun i => nth i non_nan_idx O) (argsort A non_nans) in
  rev indexer ++ nan_idx.

(** [df.take(indexer)]. *)
Definition take {A : Type} (rows : list A) (indexer : list nat) : list A :=
  flat_map (fun i => match nth_error rows i with
                     | Some r => [r]
                     | None => []
                     end) indexer.

(* ================================================================== *)
(** ** The scoring pipeline *)

(** A row of the result; an absent price is shown as a dash. *)
Record row : Type := {
  row_ticker : string;
  row_name : string;
  row_current : option Z;
  row_target : option Z;
  row_upside : F64.float;
  row_upside_score : F64.float;
  row_ai_score : F64.float;
  row_final_score : F64.float
}.

Section Pipeline.

Variable W : world.
Variable A : Argsort.

(** The body of the loop over the universe. *)
Definition score_row (w_m w_v w_q : F64.float) (inst : instrument) : row :=
  let ticker := Ticker inst in
  let name := Name inst in
  let mom := mock_factor_score ticker "mom" in
  let val := mock_factor_score ticker "val" in
  let qual := mock_factor_score ticker "qual" in
  let prices := get_naver_finance_prices (quote_response W) ticker in
  let upside := upside prices in
  let upside_score :=
    if F64.ltb F64.zero upside
    then F64.min (F64.tenths 150)
                 (F64.mul (F64.div upside (F64.tenths 300)) (F64.tenths 150))
    else F64.zero in
  let upside_score := F64.round1 upside_score in
  let ai_score :=
    F64.round1
      (F64.add (F64.add (F64.mul (F64.of_int mom) w_m)
                        (F64.mul (F64.of_int val) w_v))
               (F64.mul (F64.of_int qual) w_q)) in
  let final_score := F64.round1 (F64.add ai_score upside_score) in
  {| row_ticker := ticker;
     row_name := name;
     row_current :=
       if 0 <? current_price prices then Some (current_price prices) else None;
     row_target :=
       if 0 <? target_price prices then Some (target_price prices) else None;
     row_upside := upside;
     row_upside_score := upside_score;
     row_ai_score := ai_score;
     row_final_score := final_score |}.

(** [pd.DataFrame(data).sort_values(by=final score, ascending=False)]:
    a frame built from no rows has no columns, and the lookup of the
    sort column fails. *)
Definition sort_values_final_desc (data : list row) : result (list row) :=
  match data with
  | [] => Raise KeyError
  | _ => Ok (take data (nargsort_desc A (map row_final_score data)))
  end.

(** [reset_index(drop=True)] and the shift of the index by one. *)
Definition reindex_from_one (rows : list row) : list (Z * row) :=
  combine (map (fun i => Z.of_nat i + 1) (seq 0 (List.length rows))) rows.

Definition score_and_recommend (weights : pyval) (market : string) (limit : Z)
  : result (list (Z * row)) :=
  universe <- fetch_universe W market limit ;;
  fractions <- weight_fractions weights ;;
  let '(w_m, w_v, w_q) := fractions in
  let data := map (score_row w_m w_v w_q) universe in
  df <- sort_values_final_desc data ;;
  Ok (reindex_from_one df).

End Pipeline.

(* ================================================================== *)
(** ** The tunnel and its box in the sidebar *)

(** [sub in s]. *)
Fixpoint contains (sub s : string) : bool :=
  match strip_prefix sub s with
  | Some _ => true
  | None =>
      match s with
      | EmptyString => false
      | String _ s' => contains sub s'
      end
  end.

(** What the import of the tunnel library and [ngrok.connect(8501)] come
    to: a tunnel with its public URL, or an exception with its text. *)
Inductive connect_outcome : Type :=
| Connected (public_url : string)
| ConnectFailed (message : string).

Definition init_ngrok (outcome : connect_outcome) : string :=
  match outcome with
  | Connected public_url => public_url
  | ConnectFailed e => ("ngrok 연결 에러: " ++ e)%string
  end.

(** The box of the sidebar that shows the URL. *)
Inductive sidebar_box : Type :=
| success_box (text : string)
| error_box (text : string).

Definition newline : string := String "010" EmptyString.

Definition ngrok_status (ngrok_url : string) : sidebar_box :=
  if negb (contains "Error" ngrok_url)
  then success_box ("생성 완료:" ++ newline ++ newline ++ ngrok_url)%string
  else error_box ngrok_url.

(* ================================================================== *)
(** ** Vocabulary of the statements *)

(** The order of the keyed insertion, and keys that are numbers. *)
Definition key_le (p q : nat * F64.float) : Prop := F64.leb (snd p) (snd q) = true.
Definition key_ok (p : nat * F64.float) : Prop := F64.is_nan (snd p) = false.

(** [a] may stand before [b] in a column sorted in descending order with
    missing values last: [b] is not above [a], or [b] is NaN. *)
Definition desc_order (a b : F64.float) : Prop :=
  F64.leb b a = true \/ F64.is_nan b = true.

(** A column never increases: of two entries the later one is not greater
    than the earlier one, and when the later one is a number it is less
    than or equal to the earlier one. *)
Definition non_increasing (col : list F64.float) : Prop :=
  forall i j a b, (i < j)%nat ->
    nth_error col i = Some a -> nth_error col j = Some b ->
    F64.ltb a b = false /\ (F64.is_nan b = false -> F64.leb b a = true).

(** [x] occurs before [y] in [l]. *)
Definition before {A : Type} (l : list A) (x y : A) : Prop :=
  exists p q, (p < q)%nat /\ nth_error l p = Some x /\ nth_error l q = Some y.

(** An array sort that keeps equal values in the order of their
    positions. *)
Definition stable (A : Argsort) : Prop :=
  forall l i j,
    forallb (fun x => negb (F64.is_nan x)) l = true ->
    before (argsort A l) i j ->
    F64.eqb (nth i l F64.nan) (nth j l F64.nan) = true -> (i < j)%nat.

(** The order of the keyed insertion that keeps equal values in place. *)
Definition key_lt_or_earlier (p q : nat * F64.float) : Prop :=
  F64.ltb (snd p) (snd q) = true \/ (fst p < fst q)%nat.

(** Rows of equal final score are listed in the order of the universe. *)
Definition ties_in_universe_order (data : list row) (indexer : list nat) : Prop :=
  forall i j, before indexer i j ->
    F64.eqb (nth i (map row_final_score data) F64.nan)
            (nth j (map row_final_score data) F64.nan) = true ->
    (i < j)%nat.

(** Rows of equal final score stand next to each other. *)
Definition ties_contiguous (col : list F64.float) : Prop :=
  forall i j k a b c, (i < j)%nat -> (j < k)%nat ->
    nth_error col i = Some a -> nth_error col j = Some b ->
    nth_error col k = Some c ->
    F64.eqb a c = true -> F64.eqb a b = true.

(** The value a parsed object holds for a key, when it has the key, and
    the weight of a key: the value given, or else the default of the
    key. *)
Fixpoint weight_entry (d : list (string * pyval)) (key : string)
  : option pyval :=
  match d with
  | [] => None
  | (k, v) :: d' => if String.eqb k key then Some v else weight_entry d' key
  end.

Definition weight_or_default (d : list (string * pyval)) (key : string)
  (default : F64.float) : pyval :=
  match weight_entry d key with
  | Some v => v
  | None => PFloat default
  end.

(** The prices a page yields, when it yields them. *)
Definition parsed_current (page : quote_page) : option Z :=
  match no_today page with
  | Some text => py_int (remove_commas text)
  | None => None
  end.

Definition parsed_target (page : quote_page) : option Z :=
  match target_ems page with
  | Some em_tags =>
      if (1 <? List.length em_tags)%nat
      then py_int (remove_commas (nth 1 em_tags EmptyString))
      else None
  | None => None
  end.

(** The score as the specification words it. *)
Definition spec_weight (weights : pyval) (key : string) (default : F64.float)
  : result F64.float :=
  v <- py_get weights key (PFloat default) ;; truediv_float v (F64.of_int 100).

Definition spec_composite_factor_score (momentum value quality : Z)
  (wMomentum wValue wQuality : F64.float) : F64.float :=
  F64.round1
    (F64.add (F64.add (F64.mul (F64.of_int momentum) wMomentum)
                      (F64.mul (F64.of_int value) wValue))
             (F64.mul (F64.of_int quality) wQuality)).

Definition spec_upside_bonus (upsidePercent : F64.float) : F64.float :=
  if F64.ltb F64.zero upsidePercent
  then F64.round1
         (F64.min (F64.tenths 150)
            (F64.mul (F64.div upsidePercent (F64.tenths 300)) (F64.tenths 150)))
  else F64.zero.

Definition spec_final_score (compositeFactorScore upsideBonus : F64.float)
  : F64.float :=
  F64.round1 (F64.add compositeFactorScore upsideBonus).

(** The hash of the plain concatenation, without the separator. *)
Definition spec_concat_score (ticker factorSeed : string) : Z :=
  40 + MD5.hexdigest_int (encode (ticker ++ factorSeed)%string) mod 61.

(** A float that is a number and is not below zero: a zero, a positive
    finite number or the positive infinity. *)
Definition not_negative (x : F64.float) : bool :=
  match x with
  | S754_zero _ => true
  | S754_finite s _ _ => negb s
  | S754_infinity s => negb s
  | S754_nan => false
  end.

Definition positive_finite (x : F64.float) : bool :=
  match x with S754_finite s _ _ => negb s | _ => false end.

(** A weight that is a number and is not negative. *)
Definition weight_not_negative (v : pyval) : bool :=
  match v with
  | PInt n => 0 <=? n
  | PFloat x => not_negative x
  | PBool _ => true
  | _ => false
  end.

(** The three weights the pipeline reads are numbers and not negative. *)
Definition weights_not_negative (weights : pyval) : bool :=
  match weights with
  | PDict d =>
      weight_not_negative (dict_get d "Momentum" (PFloat (F64.tenths 333)))
      && weight_not_negative (dict_get d "Value" (PFloat (F64.tenths 333)))
      && weight_not_negative (dict_get d "Quality" (PFloat (F64.tenths 334)))
  | _ => false
  end.

(** The instruments of the items up to the first one without a code or a
    name. *)
Fixpoint complete_prefix (items : list etf_item) : list instrument :=
  match items with
  | [] => []
  | item :: items' =>
      match itemcode item, itemname item with
      | Some code, Some name =>
          {| Ticker := code; Name := name |} :: complete_prefix items'
      | _, _ => []
      end
  end.

(** The worlds agree on the first five pages of every listing. *)
Definition same_first_pages (W W' : world) : Prop :=
  forall sosok page, 1 <= page <= 5 ->
    listing_response W sosok page = listing_response W' sosok page.

(** The worlds give the same listings and the same fund list; their
    quotes may differ. *)
Definition same_listings (W W' : world) : Prop :=
  (forall sosok page,
     listing_response W sosok page = listing_response W' sosok page)
  /\ etf_response W = etf_response W'.

(** The instruments of the linked rows of a page. *)
Fixpoint page_instruments (trs : list tr) : list instrument :=
  match trs with
  | [] => []
  | row :: trs' =>
      if (2 <? tds row)%nat then
        match td1_a row with
        | Some a =>
            match a_href a with
            | Some href =>
                {| Ticker := split_code_last href; Name := strip (a_text a) |}
                :: page_instruments trs'
            | None => page_instruments trs'
            end
        | None => page_instruments trs'
        end
      else page_instruments trs'
  end.

(** Every link that the loop reads has an [href]. *)
Definition links_have_href (trs : list tr) : Prop :=
  Forall (fun row =>
            (2 < tds row)%nat ->
            forall a, td1_a row = Some a -> a_href a <> None) trs.

(** The rows of the pages up to the first page without a table. *)
Fixpoint rows_until_gap (pages : list listing_page) : list instrument :=
  match pages with
  | Tbody trs :: pages' => page_instruments trs ++ rows_until_gap pages'
  | _ => []
  end.

(** A page that the loop reads without an exception. *)
Definition page_well_formed (page : listing_page) : Prop :=
  match page with
  | NoTable => True
  | NoTbody => False
  | Tbody trs => links_have_href trs
  end.

Definition is_dict (v : pyval) : bool :=
  match v with PDict _ => true | _ => false end.

(** A column in which every entry is above all the later ones. *)
Definition strictly_decreasing (col : list F64.float) : Prop :=
  StronglySorted (fun a b => F64.ltb b a = true) col.

(** The tickers of a table, in the order of its rows. *)
Definition table_tickers (table : list (Z * row)) : list string :=
  map (fun e => row_ticker (snd e)) table.

(* ================================================================== *)
(** ** Sample data *)

(** A page without the current-price markup and with a target price. *)
Definition page_without_current : quote_page :=
  {| no_today := None; target_ems := Some ["60,000"%string; "65,000"%string] |}.

Definition page_without_target : quote_page :=
  {| no_today := Some "71,500"%string; target_ems := Some ["N/A"%string] |}.

Definition listing_row (name code : string) : tr :=
  {| tds := 13;
     td1_a := Some {| a_text := name;
                      a_href := Some ("/item/main.naver?code=" ++ code)%string |} |}.

Definition blank_row : tr := {| tds := 1; td1_a := None |}.

Definition kospi_page : list tr :=
  [listing_row "Samsung Electronics" "005930"; listing_row "SK hynix" "000660";
   listing_row "LG Energy Solution" "373220"; listing_row "Samsung Biologics" "207940";
   listing_row "Hyundai Motor" "005380"; blank_row;
   listing_row "Kia" "000270"; listing_row "Celltrion" "068270";
   listing_row "KB Financial" "105560"; listing_row "NAVER" "035420";
   listing_row " LG Chem " "051910"].

Definition kosdaq_page : list tr :=
  [listing_row "EcoPro BM" "247540"; listing_row "EcoPro" "086520";
   listing_row "Celltrion Healthcare" "091990"; listing_row "POSCO DX" "022100";
   listing_row "HLB" "028300"; blank_row;
   listing_row "Alteogen" "196170"; listing_row "L&F" "066970";
   listing_row "Kakao Games" "293490"; listing_row "Pearl Abyss" "263750";
   listing_row "JYP Ent." "035900"].

(** One page of ten stocks per market, a quote for the first stock only,
    and a fund list that cannot be fetched. *)
Definition sample_world : world :=
  {| quote_response := fun url =>
       if String.eqb url (quote_url "005930")
       then Ok {| no_today := Some "71,500"%string;
                  target_ems := Some ["4.00"%string; "90,000"%string] |}
       else Raise RequestException;
     listing_response := fun sosok page =>
       if page =? 1 then
         if sosok =? 0 then Ok (Tbody kospi_page) else Ok (Tbody kosdaq_page)
       else Ok NoTable;
     etf_response := Raise RequestException |}.

Definition sample_weights : pyval :=
  PDict [("Momentum"%string, PInt 50); ("Value"%string, PInt 30);
         ("Quality"%string, PInt 20)].

Definition weights_missing_keys : pyval := PDict [("Momentum"%string, PInt 30)].
Definition weights_not_numeric : pyval :=
  PDict [("Momentum"%string, PStr "high"); ("Value"%string, PInt 30);
         ("Quality"%string, PInt 20)].

Definition table_of (res : result (list (Z * row))) : list (Z * row) :=
  match res with Ok table => table | Raise _ => [] end.

(** The tickers of a table, with the final score of each. *)
Definition ticker_scores (table : list (Z * row)) : list (string * F64.float) :=
  map (fun e => (row_ticker (snd e), row_final_score (snd e))) table.

(** The sample world when no quote can be fetched, when the pages after
    the fifth cannot be fetched, and when no listing can be fetched. *)
Definition world_without_quotes : world :=
  {| quote_response := fun _ => Raise RequestException;
     listing_response := listing_response sample_world;
     etf_response := etf_response sample_world |}.

Definition world_of_five_pages : world :=
  {| quote_response := quote_response sample_world;
     listing_response := fun sosok page =>
       if 5 <? page then Raise RequestException
       else listing_response sample_world sosok page;
     etf_response := etf_response sample_world |}.

Definition world_without_listings : world :=
  {| quote_response := quote_response sample_world;
     listing_response := fun _ _ => Raise RequestException;
     etf_response := etf_response sample_world |}.

(** The pages of the KOSPI listing of the sample world. *)
Definition sample_kospi_pages (page : Z) : listing_page :=
  if page =? 1 then Tbody kospi_page else NoTable.


(** A parsed block that is a JSON array. *)
Definition weights_as_array : pyval := PList [PInt 50; PInt 30; PInt 20].

(* ================================================================== *)
(** * Properties *)

(** ** The order of floats *)

Lemma SFcompare_antisym (x y : spec_float) :
  SFcompare y x = option_map CompOpp (SFcompare x y).
Proof.
  destruct x as [sx|sx| |sx mx ex], y as [sy|sy| |sy my ey]; simpl;
    try reflexivity;
    try (destruct sx; reflexivity); try (destruct sy; reflexivity);
    try (destruct sx, sy; reflexivity).
  change (PosDef.Pos.compare_cont Eq my mx) with (my ?= mx)%positive.
  change (PosDef.Pos.compare_cont Eq mx my) with (mx ?= my)%positive.
  rewrite (Z.compare_antisym ex ey), (Pos.compare_antisym mx my).
  destruct sx, sy; simpl; try reflexivity;
    destruct (ex ?= ey); simpl; try reflexivity;
    destruct (mx ?= my)%positive; reflexivity.
Qed.

Lemma SFcompare_some (x y : spec_float) :
  F64.is_nan x = false -> F64.is_nan y = false -> exists c, SFcompare x y = Some c.
Proof.
  destruct x, y; simpl; intros; try discriminate; eauto.
Qed.

Lemma leb_total (x y : spec_float) :
  F64.is_nan x = false -> F64.is_nan y = false ->
  F64.leb x y = false -> F64.leb y x = true.
Proof.
  intros Hx Hy. unfold F64.leb, SFleb. rewrite (SFcompare_antisym x y).
  destruct (SFcompare_some x y Hx Hy) as [c ->]. destruct c; simpl; congruence.
Qed.

Lemma ltb_false_leb (x y : spec_float) :
  F64.is_nan x = false -> F64.is_nan y = false ->
  F64.ltb x y = false -> F64.leb y x = true.
Proof.
  intros Hx Hy. unfold F64.leb, F64.ltb, SFleb, SFltb. rewrite (SFcompare_antisym x y).
  destruct (SFcompare_some x y Hx Hy) as [c ->]. destruct c; simpl; congruence.
Qed.

Lemma ltb_leb (x y : spec_float) : F64.ltb x y = true -> F64.leb x y = true.
Proof.
  unfold F64.leb, F64.ltb, SFleb, SFltb. destruct (SFcompare x y) as [[]|]; congruence.
Qed.

Lemma leb_not_nan (x y : spec_float) :
  F64.leb x y = true -> F64.is_nan x = false /\ F64.is_nan y = false.
Proof.
  unfold F64.leb, SFleb. destruct x, y; simpl; try discriminate; auto.
Qed.

Lemma leb_trans (x y z : spec_float) :
  F64.leb x y = true -> F64.leb y z = true -> F64.leb x z = true.
Proof.
  unfold F64.leb, SFleb.
  destruct x as [sx|sx| |sx mx ex], y as [sy|sy| |sy my ey], z as [sz|sz| |sz mz ez];
    simpl; try discriminate; try reflexivity;
    try (destruct sx; simpl; try discriminate; try reflexivity);
    try (destruct sy; simpl; try discriminate; try reflexivity);
    try (destruct sz; simpl; try discriminate; try reflexivity).
  all: try change (PosDef.Pos.compare_cont Eq mx my) with (mx ?= my)%positive;
    try change (PosDef.Pos.compare_cont Eq my mz) with (my ?= mz)%positive;
    try change (PosDef.Pos.compare_cont Eq mx mz) with (mx ?= mz)%positive.
  all: destruct (Z.compare_spec ex ey), (Z.compare_spec ey ez), (Z.compare_spec ex ez);
    try discriminate; try reflexivity; try lia; subst.
  all: destruct (Pos.compare_spec mx my), (Pos.compare_spec my mz), (Pos.compare_spec mx mz);
    simpl; try discriminate; try reflexivity; try lia.
Qed.

(** ** Floats that are not negative *)

Lemma mock_factor_score_range (ticker seed_str : string) :
  40 <= mock_factor_score ticker seed_str <= 100.
Proof.
  unfold mock_factor_score.
  pose proof (Z.mod_pos_bound
                (MD5.hexdigest_int (encode (ticker ++ "_" ++ seed_str)%string)) 61).
  lia.
Qed.

Lemma iter_pos_inv {T : Type} (P : T -> Prop) (f : T -> T) :
  (forall x, P x -> P (f x)) -> forall p x, P x -> P (iter_pos f p x).
Proof.
  intros Hf. induction p as [p IH|p IH|]; intros x Hx; simpl; auto.
Qed.

Lemma shr_1_nonneg (mrs : shr_record) : 0 <= shr_m mrs -> 0 <= shr_m (shr_1 mrs).
Proof.
  destruct mrs as [m r s]. simpl. destruct m as [|[p|p|]|p]; simpl; intros; lia.
Qed.

Lemma shr_nonneg (mrs : shr_record) (e n : Z) :
  0 <= shr_m mrs -> 0 <= shr_m (fst (shr mrs e n)).
Proof.
  intros H. unfold shr. destruct n; simpl; try exact H.
  apply (iter_pos_inv (fun r => 0 <= shr_m r)); [apply shr_1_nonneg | exact H].
Qed.

Lemma shr_fexp_nonneg (m e : Z) (l : location) :
  0 <= m -> 0 <= shr_m (fst (shr_fexp F64.prec F64.emax m e l)).
Proof.
  intros H. unfold shr_fexp. apply shr_nonneg.
  destruct l as [|[]]; simpl; exact H.
Qed.

Lemma round_nearest_even_nonneg (m : Z) (l : location) :
  0 <= m -> 0 <= round_nearest_even m l.
Proof.
  intros H. destruct l as [|[]]; simpl; try lia.
  destruct (Z.even m); lia.
Qed.

Lemma binary_round_aux_not_negative (m e : Z) (l : location) :
  0 <= m ->
  not_negative (binary_round_aux F64.prec F64.emax false m e l) = true.
Proof.
  intros H. unfold binary_round_aux.
  pose proof (shr_fexp_nonneg m e l H) as H1.
  destruct (shr_fexp F64.prec F64.emax m e l) as [mrs' e']. simpl in H1.
  pose proof (shr_fexp_nonneg _ e' loc_Exact
                (round_nearest_even_nonneg _ (loc_of_shr_record mrs') H1)) as H2.
  destruct (shr_fexp F64.prec F64.emax _ e' loc_Exact) as [mrs'' e''].
  simpl in H2. destruct (shr_m mrs''); try reflexivity; [|lia].
  destruct (e'' <=? _); reflexivity.
Qed.

Lemma binary_round_not_negative (m : positive) (e : Z) :
  not_negative (binary_round F64.prec F64.emax false m e) = true.
Proof.
  unfold binary_round. destruct (shl_align _ _ _) as [mz ez].
  apply binary_round_aux_not_negative. lia.
Qed.

Lemma of_int_not_negative (n : Z) : 0 <= n -> not_negative (F64.of_int n) = true.
Proof.
  intros H. unfold F64.of_int, binary_normalize. destruct n; [reflexivity| |lia].
  apply binary_round_not_negative.
Qed.

Lemma div_not_negative (x : F64.float) (m : positive) (e : Z) :
  not_negative x = true ->
  not_negative (F64.div x (S754_finite false m e)) = true.
Proof.
  intros Hx. destruct x as [sx|sx| |sx mx ex]; try discriminate.
  - reflexivity.
  - destruct sx; [discriminate|reflexivity].
  - destruct sx; [discriminate|]. unfold F64.div, SFdiv. simpl xorb.
    destruct (SFdiv_core_binary _ _ _ _ _ _) as [[mz ez] lz] eqn:E.
    apply binary_round_aux_not_negative.
    unfold SFdiv_core_binary in E.
    match type of E with
    | (let '(q, r) := Z.div_eucl ?a ?b in _) = _ =>
        pose proof (Z.div_eucl_eq a b ltac:(lia)) as Heq;
        pose proof (Z.mod_pos_bound a b ltac:(lia)) as Hmod;
        assert (Ha : 0 <= a);
        [|pose proof (Z.div_pos a b Ha ltac:(lia)) as Hq;
          unfold Z.div in Hq; destruct (Z.div_eucl a b) as [q r]]
    end.
    + destruct (_ - _ - _); try lia. rewrite Z.shiftl_mul_pow2 by lia.
      apply Z.mul_nonneg_nonneg; [lia|]. apply Z.pow_nonneg. lia.
    + injection E as <- _ _. exact Hq.
Qed.

Lemma add_not_negative (x y : F64.float) :
  not_negative x = true -> not_negative y = true ->
  not_negative (F64.add x y) = true.
Proof.
  intros Hx Hy.
  destruct x as [sx|sx| |sx mx ex]; try discriminate;
    destruct y as [sy|sy| |sy my ey]; try discriminate;
    try (destruct sx; try discriminate); try (destruct sy; try discriminate);
    try reflexivity.
  unfold F64.add, SFadd. simpl cond_Zopp.
  destruct (shl_align mx ex _) as [m1 e1]. destruct (shl_align my ey _) as [m2 e2].
  simpl fst. simpl Z.add. apply binary_round_not_negative.
Qed.

Lemma round1_not_negative (x : F64.float) :
  not_negative x = true -> not_negative (F64.round1 x) = true.
Proof.
  intros Hx. destruct x as [sx|sx| |sx mx ex]; try exact Hx.
  destruct sx; [discriminate|]. unfold F64.round1.
  destruct (0 <=? ex); [reflexivity|].
  destruct (F64.round_half_even _ _); try reflexivity.
  apply (div_not_negative (S754_finite false p 0) 10 0). reflexivity.
Qed.

Lemma not_negative_not_nan (x : F64.float) :
  not_negative x = true -> F64.is_nan x = false.
Proof. destruct x; simpl; congruence. Qed.

Lemma ltb_zero_not_negative (x : F64.float) :
  F64.ltb F64.zero x = true -> not_negative x = true.
Proof.
  unfold F64.ltb, SFltb.
  destruct x as [s|s| |s m e]; try destruct s; simpl; congruence.
Qed.

Lemma min_not_negative (a b : F64.float) :
  not_negative a = true -> not_negative b = true ->
  not_negative (F64.min a b) = true.
Proof. intros Ha Hb. unfold F64.min. destruct (F64.ltb b a); assumption. Qed.

Lemma spec_upside_bonus_not_negative (up : F64.float) :
  not_negative (spec_upside_bonus up) = true.
Proof.
  unfold spec_upside_bonus. destruct (F64.ltb F64.zero up) eqn:E; [|reflexivity].
  apply ltb_zero_not_negative in E.
  apply round1_not_negative, min_not_negative; [reflexivity|].
  assert (H : not_negative (F64.div up (F64.tenths 300)) = true)
    by (apply (div_not_negative up); exact E).
  destruct (F64.div up (F64.tenths 300)) as [s|s| |s m e]; try discriminate.
  - reflexivity.
  - destruct s; [discriminate|reflexivity].
  - destruct s; [discriminate|].
    change (F64.tenths 150) with (S754_finite false 8444249301319680 (-49)).
    unfold F64.mul, SFmul. simpl xorb. apply binary_round_aux_not_negative. lia.
Qed.

Lemma truediv_float_not_negative (v : pyval) (w : F64.float) :
  weight_not_negative v = true ->
  truediv_float v (F64.of_int 100) = Ok w -> not_negative w = true.
Proof.
  intros Hv. unfold truediv_float, as_float.
  change (F64.of_int 100) with (S754_finite false 7036874417766400 (-46)).
  destruct v as [|b|n|x|s|l|d]; try discriminate; simpl in Hv.
  - cbn [bind]. intros E. injection E as <-. apply div_not_negative.
    destruct b; reflexivity.
  - apply Z.leb_le in Hv. destruct (F64.is_inf (F64.of_int n)); [discriminate|].
    cbn [bind]. intros E. injection E as <-.
    apply div_not_negative, of_int_not_negative, Hv.
  - cbn [bind]. intros E. injection E as <-. apply div_not_negative, Hv.
Qed.

Lemma of_int_factor_score (ticker seed : string) :
  positive_finite (F64.of_int (mock_factor_score ticker seed)) = true.
Proof.
  assert (Hall : forallb (fun n => positive_finite (F64.of_int (Z.of_nat n)))
                   (seq 40 61) = true) by (vm_compute; reflexivity).
  pose proof (mock_factor_score_range ticker seed) as Hr.
  rewrite forallb_forall in Hall.
  specialize (Hall (Z.to_nat (mock_factor_score ticker seed))).
  rewrite Z2Nat.id in Hall by lia. apply Hall. apply in_seq. lia.
Qed.

Lemma mul_factor_not_negative (x y : F64.float) :
  positive_finite x = true -> not_negative y = true ->
  not_negative (F64.mul x y) = true.
Proof.
  intros Hx Hy. destruct x as [sx|sx| |sx mx ex]; try discriminate.
  destruct sx; [discriminate|]. destruct y as [sy|sy| |sy my ey]; try discriminate.
  - reflexivity.
  - destruct sy; [discriminate|reflexivity].
  - destruct sy; [discriminate|]. unfold F64.mul, SFmul. simpl xorb.
    apply binary_round_aux_not_negative. lia.
Qed.

Lemma spec_weight_not_negative (d : list (string * pyval)) (key : string)
  (default w : F64.float) :
  weight_not_negative (dict_get d key (PFloat default)) = true ->
  spec_weight (PDict d) key default = Ok w -> not_negative w = true.
Proof.
  intros Hv. unfold spec_weight. cbn [py_get bind].
  apply truediv_float_not_negative, Hv.
Qed.

(** ** Lists, permutations and sorted lists *)

Section ListFacts.
Context {A B : Type}.

Lemma take_seq_from (rows pre : list A) :
  take (pre ++ rows) (seq (List.length pre) (List.length rows)) = rows.
Proof.
  revert pre. induction rows as [|r rows IH]; intros pre; simpl; [reflexivity|].
  rewrite nth_error_app2 by lia. rewrite Nat.sub_diag. simpl. f_equal.
  specialize (IH (pre ++ [r])). rewrite <- app_assoc, length_app in IH. simpl in IH.
  rewrite Nat.add_1_r in IH. exact IH.
Qed.

Lemma take_seq (rows : list A) : take rows (seq 0 (List.length rows)) = rows.
Proof. exact (take_seq_from rows []). Qed.

Lemma take_perm (rows : list A) (indexer : list nat) :
  Permutation indexer (seq 0 (List.length rows)) ->
  Permutation (take rows indexer) rows.
Proof.
  intros H. rewrite <- (take_seq rows) at 2. unfold take.
  apply Permutation_flat_map. exact H.
Qed.

Lemma map_take (f : A -> B) (d : B) (rows : list A) (indexer : list nat) :
  Forall (fun i => (i < List.length rows)%nat) indexer ->
  map f (take rows indexer) = map (fun i => nth i (map f rows) d) indexer.
Proof.
  induction 1 as [|i indexer Hi _ IH]; simpl; [reflexivity|].
  rewrite map_app, IH. destruct (nth_error rows i) as [r|] eqn:E.
  - simpl. f_equal. symmetry. apply nth_error_nth.
    rewrite nth_error_map, E. reflexivity.
  - apply nth_error_None in E. lia.
Qed.

Lemma filter_split_perm (f : A -> bool) (l : list A) :
  Permutation (filter (fun x => negb (f x)) l ++ filter f l) l.
Proof.
  induction l as [|x l IH]; simpl; [constructor|].
  destruct (f x); simpl.
  - apply Permutation_sym, Permutation_cons_app, Permutation_sym, IH.
  - constructor. exact IH.
Qed.

Lemma combine_seq_nth (l : list A) (s i : nat) (x : A) :
  In (i, x) (combine (seq s (List.length l)) l) ->
  (s <= i)%nat /\ nth_error l (i - s) = Some x.
Proof.
  revert s. induction l as [|y l IH]; intros s; simpl; [tauto|].
  intros [E|H].
  - inversion E; subst. rewrite Nat.sub_diag. auto.
  - apply IH in H. destruct H as [Hs H]. split; [lia|].
    replace (i - s)%nat with (S (i - S s)) by lia. exact H.
Qed.

Lemma map_fst_combine_seq (l : list A) (s : nat) :
  map fst (combine (seq s (List.length l)) l) = seq s (List.length l).
Proof.
  revert s. induction l as [|y l IH]; intros s; simpl; [reflexivity|].
  f_equal. apply IH.
Qed.

Lemma StronglySorted_app (R : A -> A -> Prop) (l1 l2 : list A) :
  StronglySorted R l1 -> StronglySorted R l2 ->
  (forall a b, In a l1 -> In b l2 -> R a b) ->
  StronglySorted R (l1 ++ l2).
Proof.
  induction 1 as [|a l1 Hs IH Ha]; intros H2 H; simpl; [exact H2|].
  constructor.
  - apply IH; [exact H2|]. intros; apply H; simpl; auto.
  - apply Forall_app. split; [exact Ha|].
    apply Forall_forall. intros b Hb. apply H; simpl; auto.
Qed.

Lemma StronglySorted_rev (R : A -> A -> Prop) (l : list A) :
  StronglySorted R l -> StronglySorted (fun a b => R b a) (rev l).
Proof.
  induction 1 as [|a l Hs IH Ha]; simpl; [constructor|].
  apply StronglySorted_app.
  - exact IH.
  - repeat constructor.
  - intros x y Hx [<-|[]]. apply in_rev in Hx.
    rewrite Forall_forall in Ha. auto.
Qed.

Lemma StronglySorted_all (R : A -> A -> Prop) (l : list A) :
  (forall a b, In a l -> In b l -> R a b) -> StronglySorted R l.
Proof.
  induction l as [|a l IH]; intros H; constructor.
  - apply IH. intros; apply H; simpl; auto.
  - apply Forall_forall. intros b Hb. apply H; simpl; auto.
Qed.

End ListFacts.

(** ** The insertion sorts meet the description of the array sort *)


Lemma insert_key_perm (stable : bool) p l :
  Permutation (insert_key stable p l) (p :: l).
Proof.
  induction l as [|q l IH]; simpl; [apply Permutation_refl|].
  destruct (if stable then _ else _).
  - apply Permutation_refl.
  - eapply perm_trans; [apply perm_skip, IH | apply perm_swap].
Qed.

Lemma insert_key_hd (stable : bool) p q l :
  key_le q p -> HdRel key_le q l -> HdRel key_le q (insert_key stable p l).
Proof.
  intros Hqp Hl. destruct l as [|r l]; simpl.
  - constructor. exact Hqp.
  - destruct (if stable then _ else _); constructor; [exact Hqp|].
    inversion Hl; assumption.
Qed.

Lemma insert_key_sorted (stable : bool) p l :
  key_ok p -> Forall key_ok l -> Sorted key_le l ->
  Sorted key_le (insert_key stable p l).
Proof.
  intros Hp Hl Hs. induction l as [|q l IH]; simpl.
  - repeat constructor.
  - inversion Hl as [|? ? Hq Hl']; subst. inversion Hs as [|? ? Hs' Hhd]; subst.
    destruct (if stable then _ else _) eqn:E.
    + constructor; [exact Hs|]. constructor. unfold key_le.
      destruct stable; [exact E | apply ltb_leb, E].
    + constructor; [apply IH; assumption|].
      apply insert_key_hd; [|exact Hhd]. unfold key_le.
      destruct stable; [apply leb_total | apply ltb_false_leb]; assumption.
Qed.

Lemma insertion_sorted (stable : bool) (ps : list (nat * F64.float)) :
  Forall key_ok ps -> Sorted key_le (fold_right (insert_key stable) [] ps).
Proof.
  induction 1 as [|p ps Hp Hps IH]; simpl; [constructor|].
  apply insert_key_sorted; [exact Hp| |exact IH].
  clear IH Hp. induction Hps as [|q ps Hq _ IH]; simpl; [constructor|].
  eapply Permutation_Forall; [apply Permutation_sym, insert_key_perm|].
  constructor; assumption.
Qed.

Lemma insertion_perm (stable : bool) (ps : list (nat * F64.float)) :
  Permutation (fold_right (insert_key stable) [] ps) ps.
Proof.
  induction ps as [|p ps IH]; simpl; [constructor|].
  eapply perm_trans; [apply insert_key_perm | apply perm_skip, IH].
Qed.

Lemma Sorted_map_snd (l : list (nat * F64.float)) :
  Sorted key_le l -> Sorted (fun a b => F64.leb a b = true) (map snd l).
Proof.
  induction 1 as [|p l Hs IH Hhd]; simpl; constructor; [exact IH|].
  destruct Hhd; simpl; constructor. assumption.
Qed.

Lemma insertion_argsort_perm (stable : bool) (l : list F64.float) :
  Permutation (insertion_argsort stable l) (seq 0 (List.length l)).
Proof.
  unfold insertion_argsort.
  rewrite <- (map_fst_combine_seq l 0) at 2.
  apply Permutation_map, insertion_perm.
Qed.

Lemma insertion_argsort_sorted (stable : bool) (l : list F64.float) :
  forallb (fun x => negb (F64.is_nan x)) l = true ->
  Sorted (fun a b => F64.leb a b = true)
         (map (fun i => nth i l F64.nan) (insertion_argsort stable l)).
Proof.
  intros Hl. unfold insertion_argsort. rewrite map_map.
  set (ps := combine (seq 0 (List.length l)) l).
  assert (Hin : forall p, In p ps -> nth (fst p) l F64.nan = snd p /\ key_ok p).
  { intros [i x] Hp. apply combine_seq_nth in Hp. destruct Hp as [_ Hp].
    rewrite Nat.sub_0_r in Hp. simpl. split.
    - apply nth_error_nth. exact Hp.
    - apply nth_error_In in Hp. rewrite forallb_forall in Hl.
      apply Hl in Hp. unfold key_ok. simpl. destruct (F64.is_nan x); [discriminate|reflexivity]. }
  rewrite (map_ext_in _ snd).
  - apply Sorted_map_snd, insertion_sorted.
    apply Forall_forall. intros p Hp. apply Hin, Hp.
  - intros p Hp. apply Hin.
    eapply Permutation_in; [apply insertion_perm | exact Hp].
Qed.

Definition stable_argsort : Argsort :=
  {| argsort := insertion_argsort true;
     argsort_perm := insertion_argsort_perm true;
     argsort_sorted := insertion_argsort_sorted true |}.

(** The second insertion sort.  Neither of the two is the library's
    sort: they are two of the sorts that meet its description, and serve
    to run statements that hold for every such sort. *)
Definition reversing_argsort : Argsort :=
  {| argsort := insertion_argsort false;
     argsort_perm := insertion_argsort_perm false;
     argsort_sorted := insertion_argsort_sorted false |}.

(** The sample universe and its table. *)
Definition sample_universe : list instrument :=
  Eval vm_compute in
    match fetch_universe sample_world "전체 종목" 20 with
    | Ok universe => universe
    | Raise _ => []
    end.

Definition sample_table : list (Z * row) :=
  Eval vm_compute in
    table_of (score_and_recommend sample_world stable_argsort sample_weights
                "전체 종목" 20).

(** The table of the KOSPI segment of the sample world. *)
Definition kospi_table : list (Z * row) :=
  Eval vm_compute in
    table_of (score_and_recommend sample_world stable_argsort sample_weights
                "코스피" 10).

(** ** The indexer of the descending sort *)


Lemma map_nth_seq {A : Type} (l : list A) (d : A) :
  map (fun i => nth i l d) (seq 0 (List.length l)) = l.
Proof.
  apply (nth_ext _ _ d d).
  - rewrite length_map, length_seq. reflexivity.
  - intros n Hn. rewrite length_map, length_seq in Hn.
    rewrite (nth_indep _ d (nth 0%nat l d)) by (rewrite length_map, length_seq; exact Hn).
    rewrite (map_nth (fun i => nth i l d) (seq 0 (List.length l)) 0%nat n).
    rewrite seq_nth by exact Hn. reflexivity.
Qed.

Lemma StronglySorted_weaken {A : Type} (R R' : A -> A -> Prop) (l : list A) :
  (forall a b, R a b -> R' a b) -> StronglySorted R l -> StronglySorted R' l.
Proof.
  intros H. induction 1 as [|a l Hs IH Ha]; constructor; [exact IH|].
  eapply Forall_impl; [|exact Ha]. intros b. apply H.
Qed.

Section Nargsort.
Variable A : Argsort.
Variable items : list F64.float.

Let keyed := combine (seq 0 (List.length items)) items.
Let kept := filter (fun p => negb (F64.is_nan (snd p))) keyed.
Let nans := filter (fun p => F64.is_nan (snd p)) keyed.
Let key := fun i => nth i items F64.nan.

Lemma keyed_key p : In p keyed -> key (fst p) = snd p /\ (fst p < List.length items)%nat.
Proof.
  destruct p as [i x]. intros Hp. apply combine_seq_nth in Hp.
  destruct Hp as [_ Hp]. rewrite Nat.sub_0_r in Hp. simpl. split.
  - apply nth_error_nth. exact Hp.
  - apply nth_error_Some. congruence.
Qed.

Lemma nargsort_desc_unfold :
  nargsort_desc A items =
  rev (map (fun j => nth j (map fst (rev kept)) O)
           (argsort A (map snd (rev kept))))
  ++ map fst nans.
Proof. unfold nargsort_desc. rewrite !map_rev. reflexivity. Qed.

Lemma nargsort_desc_perm :
  Permutation (nargsort_desc A items) (seq 0 (List.length items)).
Proof.
  rewrite nargsort_desc_unfold.
  rewrite <- (map_fst_combine_seq items 0). fold keyed.
  eapply perm_trans; [|apply Permutation_map, (filter_split_perm (fun p => F64.is_nan (snd p)))].
  fold kept nans. rewrite map_app. apply Permutation_app_tail.
  eapply perm_trans; [apply Permutation_sym, Permutation_rev|].
  eapply perm_trans.
  { apply Permutation_map, (argsort_perm A). }
  rewrite length_map, <- (length_map fst), map_nth_seq.
  rewrite map_rev. apply Permutation_sym, Permutation_rev.
Qed.

Lemma kept_keys_sorted :
  map key (map (fun j => nth j (map fst (rev kept)) O)
               (argsort A (map snd (rev kept))))
  = map (fun j => nth j (map snd (rev kept)) F64.nan)
        (argsort A (map snd (rev kept))).
Proof.
  rewrite map_map. apply map_ext_in. intros j Hj.
  assert (Hlt : (j < List.length (rev kept))%nat).
  { eapply Permutation_in in Hj; [|apply (argsort_perm A)].
    apply in_seq in Hj. rewrite length_map in Hj. lia. }
  change O with (fst (O, F64.nan)). change F64.nan with (snd (O, F64.nan)) at 2.
  rewrite !map_nth.
  assert (Hin : In (nth j (rev kept) (O, F64.nan)) keyed).
  { apply nth_In with (d := (O, F64.nan)) in Hlt. apply in_rev in Hlt.
    apply filter_In in Hlt. tauto. }
  apply keyed_key in Hin. tauto.
Qed.

Lemma nargsort_desc_sorted :
  StronglySorted desc_order (map key (nargsort_desc A items)).
Proof.
  rewrite nargsort_desc_unfold, map_app, map_rev, kept_keys_sorted.
  assert (Hk : forallb (fun x => negb (F64.is_nan x)) (map snd (rev kept)) = true).
  { apply forallb_forall. intros x Hx. apply in_map_iff in Hx.
    destruct Hx as [p [<- Hp]]. apply in_rev, filter_In in Hp. tauto. }
  apply StronglySorted_app.
  - apply StronglySorted_weaken with (R := fun a b => F64.leb b a = true).
    + intros a b H. left. exact H.
    + apply StronglySorted_rev. apply Sorted_StronglySorted.
      * intros x y z. apply leb_trans.
      * apply (argsort_sorted A), Hk.
  - apply StronglySorted_all. intros a b _ Hb. right.
    apply in_map_iff in Hb. destruct Hb as [i [<- Hi]].
    apply in_map_iff in Hi. destruct Hi as [p [<- Hp]].
    apply filter_In in Hp. destruct Hp as [Hp Hn].
    apply keyed_key in Hp. destruct Hp as [-> _]. exact Hn.
  - intros a b _ Hb. right.
    apply in_map_iff in Hb. destruct Hb as [i [<- Hi]].
    apply in_map_iff in Hi. destruct Hi as [p [<- Hp]].
    apply filter_In in Hp. destruct Hp as [Hp Hn].
    apply keyed_key in Hp. destruct Hp as [-> _]. exact Hn.
Qed.

End Nargsort.

(** ** The quote adapter *)

(** The quote in terms of what the page yields. *)
Lemma get_naver_finance_prices_page get ticker page :
  get (quote_url ticker) = Ok page ->
  let c := match parsed_current page with Some n => n | None => 0 end in
  let t := match parsed_target page with Some n => n | None => 0 end in
  get_naver_finance_prices get ticker =
    if (0 <? c) && (c <? t) then
      match truediv_int t c with
      | Ok ratio =>
          {| current_price := c; target_price := t;
             upside := F64.round1
                         (F64.mul (F64.sub ratio (F64.of_int 1)) (F64.of_int 100)) |}
      | Raise _ => zero_quote
      end
    else {| current_price := c; target_price := t; upside := F64.zero |}.
Proof.
  intros Hget. unfold get_naver_finance_prices. rewrite Hget. simpl.
  unfold parsed_current, parsed_target, price_of_text.
  destruct (no_today page) as [text|];
    destruct (target_ems page) as [ems|];
    try destruct (1 <? List.length ems)%nat;
    repeat match goal with
           | |- context [py_int ?s] => destruct (py_int s)
           end;
    simpl;
    repeat match goal with
           | |- context [(0 <? ?c) && (?c <? ?t)] =>
               destruct ((0 <? c) && (c <? t)); simpl
           | |- context [truediv_int ?t ?c] => destruct (truediv_int t c); simpl
           end;
    reflexivity.
Qed.

Lemma get_naver_finance_prices_raise get ticker e :
  get (quote_url ticker) = Raise e ->
  get_naver_finance_prices get ticker = zero_quote.
Proof.
  intros Hget. unfold get_naver_finance_prices. rewrite Hget. reflexivity.
Qed.

(** C5: the upside of the returned quote is the rounded percentage by
    which the target exceeds the current price when the current price is
    positive and below the target, and exactly 0.0 otherwise; so a
    positive upside needs both prices and a target above the current
    price. *)
Theorem upside_percent_formula (get : string -> result quote_page) (ticker : string) :
  let q := get_naver_finance_prices get ticker in
  (if (0 <? current_price q) && (current_price q <? target_price q)
   then exists ratio,
          truediv_int (target_price q) (current_price q) = Ok ratio /\
          upside q =
            F64.round1 (F64.mul (F64.sub ratio (F64.of_int 1)) (F64.of_int 100))
   else upside q = F64.zero)
  /\ (F64.ltb F64.zero (upside q) = true ->
      0 < current_price q /\ current_price q < target_price q).
Proof.
  cbv zeta. destruct (get (quote_url ticker)) as [page|e] eqn:Hget.
  - rewrite (get_naver_finance_prices_page get ticker page Hget). cbv zeta.
    set (c := match parsed_current page with Some n => n | None => 0 end).
    set (t := match parsed_target page with Some n => n | None => 0 end).
    destruct ((0 <? c) && (c <? t)) eqn:Hc.
    + destruct (truediv_int t c) as [ratio|e] eqn:Hdiv; simpl.
      * rewrite Hc. split; [eauto|]. intros _.
        apply andb_prop in Hc. destruct Hc as [H1 H2].
        apply Z.ltb_lt in H1, H2. auto.
      * split; [reflexivity | discriminate].
    + simpl. rewrite Hc. split; [reflexivity | discriminate].
  - rewrite (get_naver_finance_prices_raise get ticker e Hget). simpl.
    split; [reflexivity | discriminate].
Qed.

(** C6, amended: the adapter returns a quote for every ticker and lets no
    exception out; when the request, the work on the page or the division
    of the prices raises, the quote is the zero quote; otherwise each
    price is the one parsed from the page, or 0 when its markup is missing
    or its text does not parse. *)
Theorem quote_total_with_fallback (get : string -> result quote_page) (ticker : string) :
  let q := get_naver_finance_prices get ticker in
  match get (quote_url ticker) with
  | Raise _ => q = zero_quote
  | Ok page =>
      let c := match parsed_current page with Some n => n | None => 0 end in
      let t := match parsed_target page with Some n => n | None => 0 end in
      match (if (0 <? c) && (c <? t) then truediv_int t c else Ok F64.zero) with
      | Raise _ => q = zero_quote
      | Ok _ => current_price q = c /\ target_price q = t
      end
  end.
Proof.
  cbv zeta. destruct (get (quote_url ticker)) as [page|e] eqn:Hget.
  - rewrite (get_naver_finance_prices_page get ticker page Hget). cbv zeta.
    destruct (_ && _); [destruct (truediv_int _ _)|]; simpl; auto.
  - apply (get_naver_finance_prices_raise get ticker e Hget).
Qed.

(** C6 as stated fails: missing markup for one price does not give the
    zero quote. *)
Lemma missing_markup_not_zero_quote :
  get_naver_finance_prices (fun _ => Ok page_without_current) "005930"
    = {| current_price := 0; target_price := 65000; upside := F64.zero |}
  /\ get_naver_finance_prices (fun _ => Ok page_without_current) "005930"
     <> zero_quote.
Proof. split; [reflexivity | discriminate]. Qed.

(** C10: a page that yields one price and not the other gives a quote
    with that price, 0 for the other and an upside of 0.0. *)
Theorem partial_quote_kept (get : string -> result quote_page) (ticker : string)
  (page : quote_page) :
  get (quote_url ticker) = Ok page ->
  (forall c, parsed_current page = Some c -> parsed_target page = None ->
     get_naver_finance_prices get ticker =
       {| current_price := c; target_price := 0; upside := F64.zero |})
  /\
  (forall t, parsed_current page = None -> parsed_target page = Some t ->
     get_naver_finance_prices get ticker =
       {| current_price := 0; target_price := t; upside := F64.zero |}).
Proof.
  intros Hget. rewrite (get_naver_finance_prices_page get ticker page Hget).
  cbv zeta. split.
  - intros c -> ->. replace ((0 <? c) && (c <? 0)) with false; [reflexivity|].
    symmetry. apply andb_false_iff.
    destruct (0 <? c) eqn:E; [right | left; reflexivity].
    apply Z.ltb_lt in E. apply Z.ltb_ge. lia.
  - intros t -> ->. reflexivity.
Qed.

(** C10 on two pages: one without a target price, one without the
    current price. *)
Lemma partial_quote_kept_witness :
  get_naver_finance_prices (fun _ => Ok page_without_target) "005930" =
    {| current_price := 71500; target_price := 0; upside := F64.zero |}
  /\ get_naver_finance_prices (fun _ => Ok page_without_current) "005930" =
    {| current_price := 0; target_price := 65000; upside := F64.zero |}.
Proof.
  split.
  - apply (proj1 (partial_quote_kept (fun _ => Ok page_without_target) "005930"
                    page_without_target eq_refl) 71500); reflexivity.
  - apply (proj2 (partial_quote_kept (fun _ => Ok page_without_current) "005930"
                    page_without_current eq_refl) 65000); reflexivity.
Defined.

(** ** The factor simulator *)

(** C7, amended: the score is 40 plus the MD5 digest, read as an integer
    and reduced modulo 61, of the ticker, an underscore and the seed; it
    lies between 40 and 100. *)
Theorem mock_factor_score_md5 (ticker seed_str : string) :
  mock_factor_score ticker seed_str =
    40 + MD5.hexdigest_int (encode (ticker ++ "_" ++ seed_str)%string) mod 61
  /\ 40 <= mock_factor_score ticker seed_str <= 100.
Proof.
  split; [reflexivity | apply mock_factor_score_range].
Qed.

(** C7 as stated fails: the score is not a function of the concatenation
    of the ticker and the seed, and is not the hash of that
    concatenation. *)
Lemma score_not_of_concatenation :
  (mock_factor_score "005930" "mom" = 99 /\ spec_concat_score "005930" "mom" = 77)
  /\ (mock_factor_score "ab" "c" = 44 /\ mock_factor_score "a" "bc" = 58)
  /\ ~ (exists H : string -> Z,
         forall ticker seed : string,
           mock_factor_score ticker seed = 40 + H (ticker ++ seed)%string mod 61).
Proof.
  assert (E0 : mock_factor_score "005930" "mom" = 99) by (vm_compute; reflexivity).
  assert (E0' : spec_concat_score "005930" "mom" = 77) by (vm_compute; reflexivity).
  assert (E1 : mock_factor_score "ab" "c" = 44) by (vm_compute; reflexivity).
  assert (E2 : mock_factor_score "a" "bc" = 58) by (vm_compute; reflexivity).
  repeat split; try assumption.
  intros [H HH].
  pose proof (HH "ab"%string "c"%string) as H1.
  pose proof (HH "a"%string "bc"%string) as H2.
  rewrite E1 in H1. rewrite E2 in H2. cbn [append] in H1, H2. lia.
Qed.

(** ** The universe builder *)

Section UniverseFacts.
Variable W : world.

Lemma scan_rows_le (trs : list tr) (limit : Z) (data out : list instrument) :
  len data < limit ->
  scan_rows trs limit data = Ok out -> len out <= limit.
Proof.
  revert data. induction trs as [|row trs IH]; intros data Hlt; simpl.
  - intros E. inversion E; subst. lia.
  - destruct (2 <? tds row)%nat; [|apply IH; exact Hlt].
    destruct (td1_a row) as [a|]; [|apply IH; exact Hlt].
    destruct (a_href a) as [href|]; [|discriminate].
    assert (Hlen : len (data ++ [{| Ticker := split_code_last href;
                                    Name := strip (a_text a) |}]) = len data + 1).
    { unfold len. rewrite length_app. simpl. lia. }
    destruct (limit <=? len _) eqn:E.
    + intros E'. inversion E'; subst. rewrite Hlen. lia.
    + apply IH. apply Z.leb_gt in E. exact E.
Qed.

Lemma scan_pages_le (pages_left : nat) (sosok page limit : Z)
  (data out : list instrument) :
  len data <= limit ->
  scan_pages W pages_left sosok page limit data = Ok out -> len out <= limit.
Proof.
  revert page data. induction pages_left as [|n IH]; intros page data Hle; simpl.
  - intros E. inversion E; subst. exact Hle.
  - destruct (len data <? limit) eqn:Hlt.
    + destruct (listing_response W sosok page) as [[| |trs]|e]; simpl;
        try discriminate.
      * intros E. inversion E; subst. exact Hle.
      * destruct (scan_rows trs limit data) as [data'|e] eqn:Hrows; simpl;
          [|discriminate].
        apply IH. eapply scan_rows_le; [|exact Hrows].
        apply Z.ltb_lt. exact Hlt.
    + intros E. inversion E; subst. exact Hle.
Qed.

Lemma get_naver_top_cap_le (market : string) (limit : Z) (out : list instrument) :
  0 <= limit ->
  get_naver_top_cap W market limit = Ok out -> len out <= limit.
Proof.
  intros Hl. unfold get_naver_top_cap. apply scan_pages_le. exact Hl.
Qed.

Lemma len_head {A : Type} (n : Z) (l : list A) : 0 <= n -> len (head n l) <= n.
Proof.
  intros Hn. unfold head, len. destruct (0 <=? n) eqn:E; [|apply Z.leb_gt in E; lia].
  rewrite length_firstn. lia.
Qed.

(** C9: with the segment of all stocks the universe has at most [limit]
    instruments, never twice as many: each of the two listings is asked
    for [limit] candidates, the two are concatenated and the
    concatenation is cut to [limit]. *)
Theorem all_segment_at_most_limit (limit : Z) (universe : list instrument) :
  0 <= limit ->
  fetch_universe W "전체 종목" limit = Ok universe ->
  len universe <= limit
  /\ (0 < limit -> len universe < 2 * limit)
  /\ exists df1 df2,
       get_naver_top_cap W "KOSPI" limit = Ok df1 /\ len df1 <= limit /\
       get_naver_top_cap W "KOSDAQ" limit = Ok df2 /\ len df2 <= limit /\
       universe = firstn (Z.to_nat limit) (df1 ++ df2).
Proof.
  intros Hl. unfold fetch_universe. simpl String.eqb. cbv iota.
  destruct (get_naver_top_cap W "KOSPI" limit) as [df1|e] eqn:H1; cbn [bind];
    [|discriminate].
  destruct (get_naver_top_cap W "KOSDAQ" limit) as [df2|e] eqn:H2; cbn [bind];
    [|discriminate].
  intros E. inversion E; subst universe.
  pose proof (len_head limit (df1 ++ df2) Hl) as Hh.
  split; [exact Hh|]. split; [lia|].
  exists df1, df2. repeat split.
  - apply (get_naver_top_cap_le "KOSPI" limit df1 Hl H1).
  - apply (get_naver_top_cap_le "KOSDAQ" limit df2 Hl H2).
  - unfold head. destruct (0 <=? limit) eqn:E'; [reflexivity|].
    apply Z.leb_gt in E'. lia.
Qed.

End UniverseFacts.

Lemma Ok_inj {A : Type} (a b : A) : Ok a = Ok b -> a = b.
Proof. intros E. injection E as E. exact E. Qed.

(** ** The weights *)

Lemma weight_fractions_spec (weights : pyval) (w_m w_v w_q : F64.float) :
  weight_fractions weights = Ok (w_m, w_v, w_q) ->
  spec_weight weights "Momentum" (F64.tenths 333) = Ok w_m /\
  spec_weight weights "Value" (F64.tenths 333) = Ok w_v /\
  spec_weight weights "Quality" (F64.tenths 334) = Ok w_q.
Proof.
  unfold weight_fractions, spec_weight.
  destruct weights; cbn [py_get bind]; try discriminate.
  destruct (truediv_float (dict_get d "Momentum" _) _); cbn [bind]; [|discriminate].
  destruct (truediv_float (dict_get d "Value" _) _); cbn [bind]; [|discriminate].
  destruct (truediv_float (dict_get d "Quality" _) _); cbn [bind]; [|discriminate].
  intros E. apply Ok_inj in E. injection E as <- <- <-. auto.
Qed.

(** ** The pipeline *)

Section PipelineFacts.
Variable W : world.
Variable A : Argsort.

Lemma score_row_spec (w_m w_v w_q : F64.float) (inst : instrument) :
  let r := score_row W w_m w_v w_q inst in
  let q := get_naver_finance_prices (quote_response W) (Ticker inst) in
  row_ticker r = Ticker inst /\
  row_upside r = upside q /\
  row_upside_score r = spec_upside_bonus (upside q) /\
  row_ai_score r =
    spec_composite_factor_score
      (mock_factor_score (Ticker inst) "mom")
      (mock_factor_score (Ticker inst) "val")
      (mock_factor_score (Ticker inst) "qual") w_m w_v w_q /\
  row_final_score r = spec_final_score (row_ai_score r) (row_upside_score r).
Proof.
  cbv zeta. unfold score_row, spec_upside_bonus, spec_composite_factor_score,
    spec_final_score. cbn [row_ticker row_upside row_upside_score row_ai_score
                             row_final_score].
  repeat split.
  destruct (F64.ltb F64.zero _); reflexivity.
Qed.

Lemma map_snd_reindex (rows : list row) : map snd (reindex_from_one rows) = rows.
Proof.
  unfold reindex_from_one.
  generalize (fun i : nat => Z.of_nat i + 1). generalize O.
  induction rows as [|r rows IH]; intros s f; simpl; [reflexivity|].
  f_equal. apply IH.
Qed.

Lemma map_fst_reindex (rows : list row) :
  map fst (reindex_from_one rows) = map Z.of_nat (seq 1 (List.length rows)).
Proof.
  unfold reindex_from_one.
  assert (H : forall s, map fst (combine (map (fun i => Z.of_nat i + 1)
                                            (seq s (List.length rows))) rows)
                        = map Z.of_nat (seq (S s) (List.length rows))).
  { induction rows as [|r rows IH]; intros s; simpl; [reflexivity|].
    f_equal; [lia | apply IH]. }
  apply H.
Qed.

Lemma length_reindex (rows : list row) :
  List.length (reindex_from_one rows) = List.length rows.
Proof. rewrite <- (map_snd_reindex rows) at 2. rewrite length_map. reflexivity. Qed.

(** What a returned table is made of. *)
Lemma score_and_recommend_ok (weights : pyval) (market : string) (limit : Z)
  (table : list (Z * row)) :
  score_and_recommend W A weights market limit = Ok table ->
  exists universe w_m w_v w_q,
    fetch_universe W market limit = Ok universe /\
    weight_fractions weights = Ok (w_m, w_v, w_q) /\
    universe <> [] /\
    let data := map (score_row W w_m w_v w_q) universe in
    table = reindex_from_one
              (take data (nargsort_desc A (map row_final_score data))).
Proof.
  unfold score_and_recommend.
  destruct (fetch_universe W market limit) as [universe|e]; cbn [bind];
    [|discriminate].
  destruct (weight_fractions weights) as [[[w_m w_v] w_q]|e]; cbn [bind];
    [|discriminate].
  unfold sort_values_final_desc.
  destruct universe as [|inst universe]; [discriminate|].
  cbn [map bind]. intros E. apply Ok_inj in E. subst table.
  exists (inst :: universe), w_m, w_v, w_q.
  split; [reflexivity|]. split; [reflexivity|]. split; [discriminate|].
  reflexivity.
Qed.


Lemma desc_order_spec (a b : F64.float) :
  desc_order a b ->
  F64.ltb a b = false /\ (F64.is_nan b = false -> F64.leb b a = true).
Proof.
  intros [H|H].
  - split; [|intros _; exact H].
    unfold F64.ltb, F64.leb, SFltb, SFleb in *.
    rewrite (SFcompare_antisym b a).
    destruct (SFcompare b a) as [[]|]; simpl; congruence.
  - split; [|congruence].
    destruct b; try discriminate. destruct a; reflexivity.
Qed.

Lemma StronglySorted_nth_error {T : Type} (R : T -> T -> Prop) (l : list T) :
  StronglySorted R l ->
  forall i j a b, (i < j)%nat ->
    nth_error l i = Some a -> nth_error l j = Some b -> R a b.
Proof.
  induction 1 as [|x l Hs IH Hx]; intros i j a b Hij Hi Hj.
  - destruct i; discriminate.
  - destruct j as [|j]; [lia|]. simpl in Hj. destruct i as [|i]; simpl in Hi.
    + injection Hi as <-. rewrite Forall_forall in Hx.
      apply Hx. eapply nth_error_In, Hj.
    + apply (IH i j); [lia | assumption | assumption].
Qed.

Lemma desc_sorted_non_increasing (col : list F64.float) :
  StronglySorted desc_order col -> non_increasing col.
Proof.
  intros Hs i j a b Hij Hi Hj. apply desc_order_spec.
  apply (StronglySorted_nth_error desc_order col Hs i j); assumption.
Qed.

Lemma nargsort_desc_bound (items : list F64.float) :
  Forall (fun i => (i < List.length items)%nat) (nargsort_desc A items).
Proof.
  apply Forall_forall. intros i Hi.
  eapply Permutation_in in Hi; [|apply nargsort_desc_perm].
  apply in_seq in Hi. lia.
Qed.

(** C1: in a returned table every row carries the final score of the
    formula: the composite of the three factor scores under the weights
    divided by 100, rounded to one decimal, plus the upside bonus, rounded
    to one decimal, the sum rounded to one decimal; and the rows are those
    of the instruments of the universe. *)
Theorem final_score_formula (weights : pyval) (market : string) (limit : Z)
  (table : list (Z * row)) :
  score_and_recommend W A weights market limit = Ok table ->
  exists universe wMomentum wValue wQuality,
    fetch_universe W market limit = Ok universe /\
    spec_weight weights "Momentum" (F64.tenths 333) = Ok wMomentum /\
    spec_weight weights "Value" (F64.tenths 333) = Ok wValue /\
    spec_weight weights "Quality" (F64.tenths 334) = Ok wQuality /\
    Permutation (map (fun e => row_ticker (snd e)) table) (map Ticker universe) /\
    forall rank r, In (rank, r) table ->
      let q := get_naver_finance_prices (quote_response W) (row_ticker r) in
      row_ai_score r =
        spec_composite_factor_score
          (mock_factor_score (row_ticker r) "mom")
          (mock_factor_score (row_ticker r) "val")
          (mock_factor_score (row_ticker r) "qual")
          wMomentum wValue wQuality /\
      row_upside_score r = spec_upside_bonus (upside q) /\
      row_final_score r = spec_final_score (row_ai_score r) (row_upside_score r).
Proof.
  intros Hrun. apply score_and_recommend_ok in Hrun.
  destruct Hrun as (universe & w_m & w_v & w_q & Hu & Hw & _ & Ht).
  cbv zeta in Ht. apply weight_fractions_spec in Hw.
  destruct Hw as (Hm & Hv & Hq).
  exists universe, w_m, w_v, w_q. repeat (split; [assumption|]).
  set (data := map (score_row W w_m w_v w_q) universe) in *.
  assert (Hperm : Permutation (map snd table) data).
  { subst table. rewrite map_snd_reindex. apply take_perm.
    rewrite <- (length_map row_final_score). apply nargsort_desc_perm. }
  split.
  - rewrite <- (map_map snd row_ticker).
    eapply perm_trans; [apply Permutation_map, Hperm|].
    unfold data. rewrite map_map. apply Permutation_refl.
  - intros rank r Hin.
    assert (Hr : In r data).
    { eapply Permutation_in; [exact Hperm|].
      apply in_map_iff. exists (rank, r). auto. }
    apply in_map_iff in Hr. destruct Hr as [inst [<- _]].
    destruct (score_row_spec w_m w_v w_q inst) as (Ht' & _ & Hb & Ha & Hf).
    rewrite Ht'. auto.
Qed.

Lemma table_scores_non_increasing (weights : pyval) (market : string)
  (limit : Z) (table : list (Z * row)) :
  score_and_recommend W A weights market limit = Ok table ->
  non_increasing (map (fun e => row_final_score (snd e)) table).
Proof.
  intros Hrun. apply score_and_recommend_ok in Hrun.
  destruct Hrun as (universe & w_m & w_v & w_q & _ & _ & _ & Ht).
  cbv zeta in Ht.
  set (data := map (score_row W w_m w_v w_q) universe) in *.
  subst table. apply desc_sorted_non_increasing.
  rewrite <- (map_map snd row_final_score), map_snd_reindex.
  rewrite (map_take row_final_score F64.nan).
  - apply nargsort_desc_sorted.
  - rewrite <- (length_map row_final_score). apply nargsort_desc_bound.
Qed.

Lemma score_row_not_negative (w_m w_v w_q : F64.float) (inst : instrument) :
  not_negative w_m = true -> not_negative w_v = true -> not_negative w_q = true ->
  not_negative (row_final_score (score_row W w_m w_v w_q inst)) = true.
Proof.
  intros Hm Hv Hq.
  destruct (score_row_spec w_m w_v w_q inst) as (_ & _ & Hb & Ha & Hf).
  rewrite Hf, Ha, Hb. unfold spec_final_score, spec_composite_factor_score.
  apply round1_not_negative, add_not_negative;
    [|apply spec_upside_bonus_not_negative].
  apply round1_not_negative.
  repeat apply add_not_negative;
    apply mul_factor_not_negative; auto using of_int_factor_score.
Qed.

Lemma final_scores_not_negative (weights : pyval) (market : string)
  (limit : Z) (table : list (Z * row)) :
  score_and_recommend W A weights market limit = Ok table ->
  weights_not_negative weights = true ->
  Forall (fun x => not_negative x = true)
         (map (fun e => row_final_score (snd e)) table).
Proof.
  intros Hrun Hw. apply score_and_recommend_ok in Hrun.
  destruct Hrun as (universe & w_m & w_v & w_q & _ & Hf & _ & Ht).
  cbv zeta in Ht. apply weight_fractions_spec in Hf.
  destruct Hf as (Hm & Hv & Hq).
  destruct weights as [| | | | | |d]; try discriminate. simpl in Hw.
  apply andb_prop in Hw. destruct Hw as [Hw Hwq].
  apply andb_prop in Hw. destruct Hw as [Hwm Hwv].
  apply (spec_weight_not_negative d) in Hm, Hv, Hq; try assumption.
  set (data := map (score_row W w_m w_v w_q) universe) in *.
  rewrite <- (map_map snd row_final_score). subst table.
  rewrite map_snd_reindex. apply Forall_forall. intros x Hx.
  apply in_map_iff in Hx. destruct Hx as [r [<- Hr]].
  eapply Permutation_in in Hr;
    [|apply take_perm; rewrite <- (length_map row_final_score);
      apply nargsort_desc_perm].
  apply in_map_iff in Hr. destruct Hr as [inst [<- _]].
  apply score_row_not_negative; assumption.
Qed.

(** C2: in a returned table the final scores never increase from one row
    to the next ones, and the ranks are 1, 2, ..., N.  A score that is
    not a number has no order and the sort lists it last; with weights
    that are numbers and not negative every score is a number, and each
    score is less than or equal to every score above it. *)
Theorem ranked_table_sorted (weights : pyval) (market : string) (limit : Z)
  (table : list (Z * row)) :
  score_and_recommend W A weights market limit = Ok table ->
  let finalScores := map (fun e => row_final_score (snd e)) table in
  non_increasing finalScores
  /\ map fst table = map Z.of_nat (seq 1 (List.length table))
  /\ (weights_not_negative weights = true ->
      forall i j a b, (i < j)%nat ->
        nth_error finalScores i = Some a -> nth_error finalScores j = Some b ->
        F64.leb b a = true).
Proof.
  intros Hrun. cbv zeta.
  pose proof (table_scores_non_increasing weights market limit table Hrun) as Hs.
  split; [exact Hs|]. split.
  - apply score_and_recommend_ok in Hrun.
    destruct Hrun as (universe & w_m & w_v & w_q & _ & _ & _ & Ht).
    cbv zeta in Ht. subst table.
    rewrite map_fst_reindex, length_reindex. reflexivity.
  - intros Hw i j a b Hij Hi Hj.
    apply (Hs i j a b Hij Hi Hj).
    apply not_negative_not_nan.
    pose proof (final_scores_not_negative weights market limit table Hrun Hw) as Hn.
    rewrite Forall_forall in Hn. apply Hn. eapply nth_error_In, Hj.
Qed.

(** C3 fails on the code: with an empty universe the pipeline raises; the
    frame built from no rows has no column to sort by. *)
Theorem empty_universe_raises (weights : pyval) (market : string) (limit : Z) :
  fetch_universe W market limit = Ok [] ->
  score_and_recommend W A weights market limit =
    match weight_fractions weights with
    | Ok _ => Raise KeyError
    | Raise e => Raise e
    end.
Proof.
  intros Hu. unfold score_and_recommend. rewrite Hu. cbn [bind].
  destruct (weight_fractions weights) as [[[w_m w_v] w_q]|e]; reflexivity.
Qed.

End PipelineFacts.

(** ** Order of occurrence *)

Section BeforeFacts.
Context {T U : Type}.

Lemma before_in (l : list T) (x y : T) : before l x y -> In x l /\ In y l.
Proof.
  intros (p & q & _ & Hp & Hq). split; eapply nth_error_In; eassumption.
Qed.

Lemma before_app (l1 l2 : list T) (x y : T) :
  before (l1 ++ l2) x y ->
  before l1 x y \/ (In x l1 /\ In y l2) \/ before l2 x y.
Proof.
  intros (p & q & Hpq & Hp & Hq).
  destruct (Nat.ltb_spec q (List.length l1)) as [Hq1|Hq1].
  - left. exists p, q. rewrite nth_error_app1 in Hp, Hq by lia. auto.
  - rewrite nth_error_app2 in Hq by lia.
    destruct (Nat.ltb_spec p (List.length l1)) as [Hp1|Hp1].
    + right; left. rewrite nth_error_app1 in Hp by lia.
      split; eapply nth_error_In; eassumption.
    + right; right. rewrite nth_error_app2 in Hp by lia.
      exists (p - List.length l1)%nat, (q - List.length l1)%nat.
      split; [lia | auto].
Qed.

Lemma before_rev (l : list T) (x y : T) : before (rev l) x y -> before l y x.
Proof.
  intros (p & q & Hpq & Hp & Hq). rewrite nth_error_rev in Hp, Hq.
  destruct (Nat.ltb_spec p (List.length l)); [|discriminate].
  destruct (Nat.ltb_spec q (List.length l)); [|discriminate].
  exists (List.length l - S q)%nat, (List.length l - S p)%nat.
  split; [lia | auto].
Qed.

Lemma before_map (g : T -> U) (l : list T) (x' y' : U) :
  before (map g l) x' y' ->
  exists x y, before l x y /\ g x = x' /\ g y = y'.
Proof.
  intros (p & q & Hpq & Hp & Hq). rewrite nth_error_map in Hp, Hq.
  destruct (nth_error l p) as [x|] eqn:Ex; [|discriminate].
  destruct (nth_error l q) as [y|] eqn:Ey; [|discriminate].
  simpl in Hp, Hq. injection Hp as Hp. injection Hq as Hq.
  exists x, y. split; [|auto]. exists p, q. auto.
Qed.

End BeforeFacts.

Lemma eqb_not_nan (a b : F64.float) :
  F64.eqb a b = true -> F64.is_nan a = false /\ F64.is_nan b = false.
Proof.
  unfold F64.eqb, SFeqb. destruct a, b; simpl; try discriminate; auto.
Qed.

Lemma eqb_sym (a b : F64.float) : F64.eqb a b = F64.eqb b a.
Proof.
  unfold F64.eqb, SFeqb. rewrite (SFcompare_antisym a b).
  destruct (SFcompare a b) as [[]|]; reflexivity.
Qed.

Lemma eqb_ltb_false (a b : F64.float) : F64.eqb a b = true -> F64.ltb a b = false.
Proof.
  unfold F64.eqb, F64.ltb, SFeqb, SFltb.
  destruct (SFcompare a b) as [[]|]; congruence.
Qed.

Lemma leb_antisym_eqb (a b : F64.float) :
  F64.leb a b = true -> F64.leb b a = true -> F64.eqb a b = true.
Proof.
  unfold F64.eqb, F64.leb, SFeqb, SFleb. rewrite (SFcompare_antisym a b).
  destruct (SFcompare a b) as [[]|]; simpl; congruence.
Qed.

Lemma eqb_leb (a b : F64.float) : F64.eqb a b = true -> F64.leb a b = true.
Proof.
  unfold F64.eqb, F64.leb, SFeqb, SFleb.
  destruct (SFcompare a b) as [[]|]; congruence.
Qed.

Lemma filter_combine_seq_sorted {T : Type} (f : nat * T -> bool) (l : list T) (s : nat) :
  StronglySorted lt (map fst (filter f (combine (seq s (List.length l)) l))).
Proof.
  revert s. induction l as [|x l IH]; intros s; simpl; [constructor|].
  assert (Hall : Forall (lt s)
            (map fst (filter f (combine (seq (S s) (List.length l)) l)))).
  { apply Forall_forall. intros i Hi. apply in_map_iff in Hi.
    destruct Hi as [[i' y] [<- Hi]]. apply filter_In in Hi. destruct Hi as [Hi _].
    apply combine_seq_nth in Hi. simpl. lia. }
  destruct (f (s, x)); simpl; [constructor; [apply IH | exact Hall] | apply IH].
Qed.

Section NargsortStable.
Variable A : Argsort.
Variable items : list F64.float.

Let keyed := combine (seq 0 (List.length items)) items.
Let kept := filter (fun p => negb (F64.is_nan (snd p))) keyed.
Let nans := filter (fun p => F64.is_nan (snd p)) keyed.
Let key := fun i => nth i items F64.nan.

Lemma kept_key_at (j : nat) :
  (j < List.length (rev kept))%nat ->
  key (nth j (map fst (rev kept)) O) = nth j (map snd (rev kept)) F64.nan.
Proof.
  intros Hlt.
  change O with (fst (O, F64.nan)). change F64.nan with (snd (O, F64.nan)) at 2.
  rewrite !map_nth.
  assert (Hin : In (nth j (rev kept) (O, F64.nan)) keyed).
  { apply nth_In with (d := (O, F64.nan)) in Hlt. apply in_rev in Hlt.
    apply filter_In in Hlt. tauto. }
  apply (keyed_key items) in Hin. tauto.
Qed.

Lemma kept_idx_decreasing (b a : nat) :
  (b < a)%nat -> (a < List.length (rev kept))%nat ->
  (nth a (map fst (rev kept)) O < nth b (map fst (rev kept)) O)%nat.
Proof.
  intros Hba Ha.
  assert (Hs : StronglySorted (fun x y => (y < x)%nat) (map fst (rev kept))).
  { rewrite map_rev. apply StronglySorted_rev. apply filter_combine_seq_sorted. }
  apply (StronglySorted_nth_error _ _ Hs b a); [exact Hba| |];
    apply nth_error_nth'; rewrite length_map; lia.
Qed.

Lemma nan_key (i : nat) : In i (map fst nans) -> F64.is_nan (key i) = true.
Proof.
  intros Hi. apply in_map_iff in Hi. destruct Hi as [p [<- Hp]].
  apply filter_In in Hp. destruct Hp as [Hp Hn].
  apply (keyed_key items) in Hp. destruct Hp as [Hp _].
  unfold key. rewrite Hp. exact Hn.
Qed.

Lemma nargsort_desc_stable :
  stable A ->
  forall i j, before (nargsort_desc A items) i j ->
    F64.eqb (key i) (key j) = true -> (i < j)%nat.
Proof.
  intros Hst i j Hb He. rewrite nargsort_desc_unfold in Hb.
  fold keyed kept nans in Hb.
  destruct (eqb_not_nan _ _ He) as [Hi Hj].
  apply before_app in Hb. destruct Hb as [Hb | [[_ Hn] | Hb]].
  - apply before_rev in Hb. apply before_map in Hb.
    destruct Hb as (b & a & Hba & Hgb & Hga).
    assert (Hlen : forall x, In x (argsort A (map snd (rev kept))) ->
                             (x < List.length (rev kept))%nat).
    { intros x Hx. eapply Permutation_in in Hx; [|apply (argsort_perm A)].
      apply in_seq in Hx. rewrite length_map in Hx. lia. }
    destruct (before_in _ _ _ Hba) as [Hbin Hain].
    apply Hlen in Hbin, Hain.
    assert (Hlt : (b < a)%nat).
    { apply (Hst (map snd (rev kept)) b a); [| exact Hba |].
      - apply forallb_forall. intros x Hx. apply in_map_iff in Hx.
        destruct Hx as [p [<- Hp]]. apply in_rev, filter_In in Hp. tauto.
      - rewrite <- !kept_key_at by assumption. rewrite Hgb, Hga.
        rewrite eqb_sym. exact He. }
    subst i j. apply kept_idx_decreasing; assumption.
  - apply nan_key in Hn. congruence.
  - apply before_in in Hb. destruct Hb as [_ Hn]. apply nan_key in Hn. congruence.
Qed.

End NargsortStable.

(** ** The stable insertion sort is stable *)

Lemma insert_key_stable p out :
  key_ok p -> Forall key_ok out ->
  StronglySorted key_lt_or_earlier out ->
  Forall (fun q => (fst p < fst q)%nat) out ->
  StronglySorted key_lt_or_earlier (insert_key true p out).
Proof.
  intros Hp Hok Hs Hidx. induction Hs as [|q out Hs IH Hq]; simpl.
  - repeat constructor.
  - inversion Hok as [|? ? Hqok Hok']; subst.
    inversion Hidx as [|? ? Hpq Hidx']; subst.
    destruct (F64.leb (snd p) (snd q)) eqn:E.
    + constructor; [constructor; assumption|].
      eapply Forall_impl; [|exact Hidx]. intros x Hx. right. exact Hx.
    + constructor; [apply IH; assumption|].
      eapply Permutation_Forall; [apply Permutation_sym, insert_key_perm|].
      constructor; [|exact Hq]. left.
      unfold F64.ltb, F64.leb, SFltb, SFleb in *.
      rewrite (SFcompare_antisym (snd p) (snd q)).
      destruct (SFcompare_some (snd p) (snd q) Hp Hqok) as [c Hc].
      rewrite Hc in *. destruct c; simpl; congruence.
Qed.

Lemma insertion_stable_sorted (l : list F64.float) (s : nat) :
  Forall (fun x => F64.is_nan x = false) l ->
  StronglySorted key_lt_or_earlier
    (fold_right (insert_key true) [] (combine (seq s (List.length l)) l)).
Proof.
  intros Hl. revert s. induction Hl as [|x l Hx Hl IH]; intros s; simpl.
  - constructor.
  - set (out := fold_right (insert_key true) []
                  (combine (seq (S s) (List.length l)) l)).
    assert (Hin : forall q, In q out -> key_ok q /\ (s < fst q)%nat).
    { intros [i y] Hq. eapply Permutation_in in Hq; [|apply insertion_perm].
      apply combine_seq_nth in Hq. destruct Hq as [Hs Hq]. split; [|simpl; lia].
      apply nth_error_In in Hq. rewrite Forall_forall in Hl. apply Hl, Hq. }
    apply insert_key_stable.
    + exact Hx.
    + apply Forall_forall. intros q Hq. apply Hin, Hq.
    + apply IH.
    + apply Forall_forall. intros q Hq. apply Hin, Hq.
Qed.

Lemma stable_argsort_stable : stable stable_argsort.
Proof.
  intros l i j Hl Hb He. cbn [argsort stable_argsort] in Hb.
  unfold insertion_argsort in Hb. apply before_map in Hb.
  destruct Hb as (p & q & Hpq & <- & <-).
  assert (Hl' : Forall (fun x => F64.is_nan x = false) l).
  { apply Forall_forall. intros x Hx. rewrite forallb_forall in Hl.
    apply Hl in Hx. destruct (F64.is_nan x); [discriminate|reflexivity]. }
  pose proof (insertion_stable_sorted l 0 Hl') as Hs.
  destruct Hpq as (n & m & Hnm & Hn & Hm).
  pose proof (StronglySorted_nth_error _ _ Hs n m p q Hnm Hn Hm) as [H|H];
    [|exact H].
  assert (Hk : forall r, In r (fold_right (insert_key true) []
                                 (combine (seq 0 (List.length l)) l)) ->
                         nth (fst r) l F64.nan = snd r).
  { intros [k y] Hr. eapply Permutation_in in Hr; [|apply insertion_perm].
    apply combine_seq_nth in Hr. destruct Hr as [_ Hr].
    rewrite Nat.sub_0_r in Hr. simpl. apply nth_error_nth. exact Hr. }
  rewrite (Hk p), (Hk q) in He by (eapply nth_error_In; eassumption).
  apply eqb_ltb_false in He. congruence.
Qed.

(** ** A sample run *)

Lemma sample_run :
  score_and_recommend sample_world stable_argsort sample_weights "전체 종목" 20
  = Ok sample_table.
Proof. vm_compute. reflexivity. Qed.

(** The sample table, as computed by hand from the digests and the one
    quote. *)
Lemma sample_table_scores :
  ticker_scores sample_table =
    [("005930", F64.tenths 980); ("196170", F64.tenths 876);
     ("207940", F64.tenths 869); ("247540", F64.tenths 808);
     ("000270", F64.tenths 790); ("005380", F64.tenths 789);
     ("022100", F64.tenths 777); ("051910", F64.tenths 770);
     ("086520", F64.tenths 770); ("035420", F64.tenths 767);
     ("293490", F64.tenths 757); ("091990", F64.tenths 753);
     ("028300", F64.tenths 751); ("035900", F64.tenths 750);
     ("066970", F64.tenths 745); ("000660", F64.tenths 716);
     ("263750", F64.tenths 630); ("105560", F64.tenths 605);
     ("068270", F64.tenths 532); ("373220", F64.tenths 511)]%string.
Proof. vm_compute. reflexivity. Qed.

(** The adapter and the bonus on the values of the test plan. *)
Lemma quote_and_bonus_examples :
  get_naver_finance_prices
    (fun _ => Ok {| no_today := Some "50,000"%string;
                    target_ems := Some ["3.95"%string; "65,000"%string] |})
    "005930"
  = {| current_price := 50000; target_price := 65000; upside := F64.tenths 300 |}
  /\ spec_upside_bonus (F64.tenths 300) = F64.tenths 150
  /\ spec_upside_bonus (F64.tenths 150) = F64.tenths 75
  /\ spec_upside_bonus (F64.tenths 0) = F64.zero
  /\ spec_upside_bonus (F64.tenths (-52)) = F64.zero
  /\ weight_fractions sample_weights
     = Ok (F64.tenths 5, F64.tenths 3, F64.tenths 2).
Proof. repeat split; vm_compute; reflexivity. Qed.

(** Blanks and digits outside ASCII: [int] skips a no-break space and an
    ideographic space and reads full-width digits, and does not skip the
    separator character 28, which [strip] removes. *)
Lemma text_examples :
  price_of_text (String "028" "71,500") = 0
  /\ price_of_text (String "194" (String "160" "71,500")) = 71500
  /\ price_of_text "７１,５００" = 71500
  /\ price_of_text "　90,000 " = 90000
  /\ strip (String "194" (String "160" "Kia　")) = "Kia"%string
  /\ strip (String "028" " LG Chem ") = "LG Chem"%string
  /\ get_naver_finance_prices
       (fun _ => Ok {| no_today := Some (String "028" "71,500");
                       target_ems := None |}) "005930"
     = zero_quote
  /\ get_naver_finance_prices
       (fun _ => Ok {| no_today := Some (String "194" (String "160" "71,500"));
                       target_ems := Some ["4.00"%string; "90,000"%string] |})
       "005930"
     = {| current_price := 71500; target_price := 90000;
          upside := F64.tenths 259 |}.
Proof. repeat split; vm_compute; reflexivity. Qed.

(** ** The weights *)

Lemma dict_get_weight_or_default d key default :
  dict_get d key (PFloat default) = weight_or_default d key default.
Proof.
  unfold weight_or_default. induction d as [|[k v] d IH]; simpl;
    [reflexivity|].
  destruct (String.eqb k key); [reflexivity | exact IH].
Qed.

(** C4, amended: without a block, or with a block that does not parse,
    the weights are the default vector and their fractions are computed
    without an exception; a parsed object is kept as it is, and the
    pipeline reads from it, for each of the three keys, the value given
    when the object has the key and else the default of the key, 33.3,
    33.3 and 33.4: an object with none of the keys gives the fractions of
    the default vector. *)
Theorem weights_fallback :
  weights_of_block NoBlock = (default_weights, true)
  /\ (forall e, weights_of_block (Block (Raise e)) = (default_weights, true))
  /\ weight_fractions default_weights =
       Ok (F64.div (F64.tenths 333) (F64.of_int 100),
           F64.div (F64.tenths 333) (F64.of_int 100),
           F64.div (F64.tenths 334) (F64.of_int 100))
  /\ (forall d, weights_of_block (Block (Ok (PDict d))) = (PDict d, false))
  /\ (forall d,
        weight_fractions (PDict d) =
          (w_m <- truediv_float (weight_or_default d "Momentum" (F64.tenths 333))
                                (F64.of_int 100) ;;
           w_v <- truediv_float (weight_or_default d "Value" (F64.tenths 333))
                                (F64.of_int 100) ;;
           w_q <- truediv_float (weight_or_default d "Quality" (F64.tenths 334))
                                (F64.of_int 100) ;;
           Ok (w_m, w_v, w_q)))
  /\ (forall d,
        weight_entry d "Momentum" = None ->
        weight_entry d "Value" = None ->
        weight_entry d "Quality" = None ->
        weight_fractions (PDict d) = weight_fractions default_weights).
Proof.
  assert (H : forall d,
            weight_fractions (PDict d) =
              (w_m <- truediv_float
                        (weight_or_default d "Momentum" (F64.tenths 333))
                        (F64.of_int 100) ;;
               w_v <- truediv_float
                        (weight_or_default d "Value" (F64.tenths 333))
                        (F64.of_int 100) ;;
               w_q <- truediv_float
                        (weight_or_default d "Quality" (F64.tenths 334))
                        (F64.of_int 100) ;;
               Ok (w_m, w_v, w_q))).
  { intros d. unfold weight_fractions. cbn [py_get bind].
    rewrite !dict_get_weight_or_default. reflexivity. }
  split; [reflexivity|]. split; [reflexivity|].
  split; [vm_compute; reflexivity|]. split; [reflexivity|].
  split; [exact H|].
  intros d Hm Hv Hq. unfold default_weights. rewrite !H.
  unfold weight_or_default. rewrite Hm, Hv, Hq. reflexivity.
Qed.

(** C4 as stated fails: an object with missing keys is not replaced by
    the default vector, a value that is not a number makes the pipeline
    raise, and a null is kept although the warning is shown. *)
Lemma malformed_weights_not_default :
  (fst (weights_of_block (Block (Ok weights_missing_keys))) <> default_weights
   /\ weight_fractions (fst (weights_of_block (Block (Ok weights_missing_keys))))
      = Ok (F64.div (F64.of_int 30) (F64.of_int 100),
            F64.div (F64.tenths 333) (F64.of_int 100),
            F64.div (F64.tenths 334) (F64.of_int 100))
   /\ F64.div (F64.of_int 30) (F64.of_int 100)
      <> F64.div (F64.tenths 333) (F64.of_int 100))
  /\ weight_fractions (fst (weights_of_block (Block (Ok weights_not_numeric))))
     = Raise TypeError
  /\ (weights_of_block (Block (Ok PNone)) = (PNone, true)
      /\ weight_fractions PNone = Raise AttributeError).
Proof.
  repeat split; try (vm_compute; reflexivity); vm_compute; discriminate.
Qed.

(** ** Ties *)

Lemma non_increasing_ties_contiguous (col : list F64.float) :
  non_increasing col -> ties_contiguous col.
Proof.
  intros H i j k a b c Hij Hjk Hi Hj Hk He.
  destruct (eqb_not_nan _ _ He) as [Ha Hc].
  destruct (H j k b c Hjk Hj Hk) as [_ Hcb]. specialize (Hcb Hc).
  destruct (leb_not_nan _ _ Hcb) as [_ Hb].
  destruct (H i j a b Hij Hi Hj) as [_ Hba]. specialize (Hba Hb).
  apply leb_antisym_eqb; [|exact Hba].
  apply (leb_trans a c b); [apply eqb_leb, He | exact Hcb].
Qed.

Section Ties.
Variable W : world.
Variable A : Argsort.

(** In a returned table rows of equal final score stand next to each
    other, and they keep the order of the universe when the array sort
    under the frame's sort is stable.  Whether the sort of the default
    kind is stable is not decided by the code. *)
Theorem ties_contiguous_stable_sort (weights : pyval) (market : string)
  (limit : Z) (table : list (Z * row)) :
  score_and_recommend W A weights market limit = Ok table ->
  ties_contiguous (map (fun e => row_final_score (snd e)) table)
  /\ exists universe w_m w_v w_q indexer,
       fetch_universe W market limit = Ok universe /\
       weight_fractions weights = Ok (w_m, w_v, w_q) /\
       Permutation indexer (seq 0 (List.length universe)) /\
       map snd table = take (map (score_row W w_m w_v w_q) universe) indexer /\
       (stable A ->
        ties_in_universe_order (map (score_row W w_m w_v w_q) universe) indexer).
Proof.
  intros Hrun. split.
  - apply non_increasing_ties_contiguous.
    apply (table_scores_non_increasing W A weights market limit table Hrun).
  - apply score_and_recommend_ok in Hrun.
    destruct Hrun as (universe & w_m & w_v & w_q & Hu & Hw & _ & Ht).
    cbv zeta in Ht.
    set (data := map (score_row W w_m w_v w_q) universe) in *.
    exists universe, w_m, w_v, w_q,
      (nargsort_desc A (map row_final_score data)).
    split; [exact Hu|]. split; [exact Hw|]. split.
    + replace (List.length universe)
        with (List.length (map row_final_score data))
        by (unfold data; rewrite !length_map; reflexivity).
      apply nargsort_desc_perm.
    + split; [subst table; apply map_snd_reindex|].
      intros Hst i j Hb He.
      apply (nargsort_desc_stable A (map row_final_score data) Hst i j Hb He).
Qed.

End Ties.

Lemma sample_universe_run :
  fetch_universe sample_world "전체 종목" 20 = Ok sample_universe.
Proof. vm_compute. reflexivity. Qed.

(** The sample run under the stable sort. *)
Lemma ties_contiguous_stable_sort_witness :
  score_and_recommend sample_world stable_argsort sample_weights "전체 종목" 20
    = Ok sample_table
  /\ ties_contiguous (map (fun e => row_final_score (snd e)) sample_table)
  /\ exists universe w_m w_v w_q indexer,
       fetch_universe sample_world "전체 종목" 20 = Ok universe /\
       weight_fractions sample_weights = Ok (w_m, w_v, w_q) /\
       Permutation indexer (seq 0 (List.length universe)) /\
       map snd sample_table
         = take (map (score_row sample_world w_m w_v w_q) universe) indexer /\
       ties_in_universe_order
         (map (score_row sample_world w_m w_v w_q) universe) indexer.
Proof.
  split; [exact sample_run|].
  destruct (ties_contiguous_stable_sort sample_world stable_argsort
              sample_weights "전체 종목" 20 sample_table sample_run)
    as (Hc & universe & w_m & w_v & w_q & indexer & Hu & Hw & Hp & Ht & Hs).
  split; [exact Hc|].
  exists universe, w_m, w_v, w_q, indexer.
  repeat (split; [assumption|]). apply Hs, stable_argsort_stable.
Defined.

(** C1 on the sample run. *)
Lemma final_score_formula_witness :
  score_and_recommend sample_world stable_argsort sample_weights "전체 종목" 20
    = Ok sample_table
  /\ exists universe wMomentum wValue wQuality,
    fetch_universe sample_world "전체 종목" 20 = Ok universe /\
    spec_weight sample_weights "Momentum" (F64.tenths 333) = Ok wMomentum /\
    spec_weight sample_weights "Value" (F64.tenths 333) = Ok wValue /\
    spec_weight sample_weights "Quality" (F64.tenths 334) = Ok wQuality /\
    Permutation (map (fun e => row_ticker (snd e)) sample_table)
                (map Ticker universe) /\
    forall rank r, In (rank, r) sample_table ->
      let q := get_naver_finance_prices (quote_response sample_world)
                 (row_ticker r) in
      row_ai_score r =
        spec_composite_factor_score
          (mock_factor_score (row_ticker r) "mom")
          (mock_factor_score (row_ticker r) "val")
          (mock_factor_score (row_ticker r) "qual")
          wMomentum wValue wQuality /\
      row_upside_score r = spec_upside_bonus (upside q) /\
      row_final_score r = spec_final_score (row_ai_score r) (row_upside_score r).
Proof.
  split; [exact sample_run|].
  apply (final_score_formula sample_world stable_argsort sample_weights
           "전체 종목" 20 sample_table).
  vm_compute. reflexivity.
Defined.

(** C2 on the sample run. *)
Lemma ranked_table_sorted_witness :
  score_and_recommend sample_world stable_argsort sample_weights "전체 종목" 20
    = Ok sample_table
  /\ (let finalScores := map (fun e => row_final_score (snd e)) sample_table in
      non_increasing finalScores
      /\ map fst sample_table = map Z.of_nat (seq 1 (List.length sample_table))
      /\ (weights_not_negative sample_weights = true ->
          forall i j a b, (i < j)%nat ->
            nth_error finalScores i = Some a -> nth_error finalScores j = Some b ->
            F64.leb b a = true)).
Proof.
  split; [exact sample_run|].
  apply (ranked_table_sorted sample_world stable_argsort sample_weights
           "전체 종목" 20 sample_table).
  vm_compute. reflexivity.
Defined.

(** C3 on the sample world, whose fund list cannot be fetched. *)
Lemma empty_universe_raises_witness :
  fetch_universe sample_world "ETF" 30 = Ok []
  /\ score_and_recommend sample_world stable_argsort sample_weights "ETF" 30
     = Raise KeyError.
Proof.
  split; [vm_compute; reflexivity|].
  apply (empty_universe_raises sample_world stable_argsort sample_weights
           "ETF" 30).
  vm_compute. reflexivity.
Defined.

(** C9 on the sample world with a limit of three. *)
Lemma all_segment_at_most_limit_witness :
  fetch_universe sample_world "전체 종목" 3 = Ok (firstn 3 sample_universe)
  /\ len (firstn 3 sample_universe) <= 3
  /\ (0 < 3 -> len (firstn 3 sample_universe) < 2 * 3)
  /\ exists df1 df2,
       get_naver_top_cap sample_world "KOSPI" 3 = Ok df1 /\ len df1 <= 3 /\
       get_naver_top_cap sample_world "KOSDAQ" 3 = Ok df2 /\ len df2 <= 3 /\
       firstn 3 sample_universe = firstn (Z.to_nat 3) (df1 ++ df2).
Proof.
  split; [vm_compute; reflexivity|].
  apply (all_segment_at_most_limit sample_world 3 (firstn 3 sample_universe)).
  - lia.
  - vm_compute. reflexivity.
Defined.

(* ================================================================== *)
(** * Further properties of the code *)

(** ** The universe builder *)

Section UniverseMore.
Variable W : world.

Lemma etf_rows_closed (items : list etf_item) (idx limit : Z)
  (data : list instrument) :
  etf_rows items idx limit data =
    data ++ firstn (Z.to_nat (limit - idx)) (complete_prefix items).
Proof.
  revert idx data. induction items as [|item items IH]; intros idx data; simpl.
  - rewrite firstn_nil, app_nil_r. reflexivity.
  - destruct (limit <=? idx) eqn:E.
    + apply Z.leb_le in E. replace (Z.to_nat (limit - idx)) with O by lia.
      simpl. rewrite app_nil_r. reflexivity.
    + apply Z.leb_gt in E.
      destruct (itemcode item) as [code|]; [destruct (itemname item) as [name|]|];
        try (rewrite firstn_nil, app_nil_r; reflexivity).
      rewrite IH, <- app_assoc. simpl.
      replace (Z.to_nat (limit - idx)) with (S (Z.to_nat (limit - (idx + 1))))
        by lia.
      reflexivity.
Qed.

Lemma get_naver_etf_top_cap_le (limit : Z) :
  0 <= limit -> len (get_naver_etf_top_cap W limit) <= limit.
Proof.
  intros Hl. unfold get_naver_etf_top_cap, len.
  destruct (etf_response W) as [items|e]; simpl; [|lia].
  rewrite etf_rows_closed. simpl. rewrite length_firstn. lia.
Qed.

Lemma scan_pages_nonpos (n : nat) (sosok page limit : Z) :
  limit <= 0 -> scan_pages W n sosok page limit [] = Ok [].
Proof.
  intros Hl. destruct n; simpl; [reflexivity|].
  replace (len (@nil instrument) <? limit) with false; [reflexivity|].
  symmetry. apply Z.ltb_ge. unfold len. simpl. lia.
Qed.

End UniverseMore.

(** The ETF universe in closed form: the funds by descending market sum,
    up to the first one without a code or a name, at most [limit] of
    them; nothing when the request fails. *)
Theorem etf_universe_closed_form (W : world) (limit : Z) :
  fetch_universe W "ETF" limit =
    Ok match etf_response W with
       | Ok etf_list =>
           firstn (Z.to_nat limit) (complete_prefix (sorted_desc etf_list))
       | Raise _ => []
       end.
Proof.
  unfold fetch_universe. simpl String.eqb. cbv iota.
  unfold get_naver_etf_top_cap. destruct (etf_response W); [|reflexivity].
  rewrite etf_rows_closed. rewrite Z.sub_0_r. reflexivity.
Qed.

Lemma universe_empty_without_limit (W : world) (market : string) (limit : Z) :
  limit <= 0 -> fetch_universe W market limit = Ok [].
Proof.
  intros Hl. unfold fetch_universe, get_naver_top_cap, get_naver_etf_top_cap.
  rewrite !scan_pages_nonpos by exact Hl. cbn [bind].
  destruct (String.eqb market "ETF").
  { destruct (etf_response W); [|reflexivity]. rewrite etf_rows_closed.
    replace (Z.to_nat (limit - 0)) with O by lia. reflexivity. }
  destruct (String.eqb market "코스피"); [reflexivity|].
  destruct (String.eqb market "코스닥"); [reflexivity|].
  unfold head. cbn [app]. destruct (0 <=? limit); rewrite ?firstn_nil; reflexivity.
Qed.

Lemma fetch_universe_le (W : world) (market : string) (limit : Z)
  (universe : list instrument) :
  0 <= limit ->
  fetch_universe W market limit = Ok universe -> len universe <= limit.
Proof.
  intros Hl. unfold fetch_universe.
  destruct (String.eqb market "ETF").
  { intros E. apply Ok_inj in E. subst. apply get_naver_etf_top_cap_le, Hl. }
  destruct (String.eqb market "코스피");
    [apply get_naver_top_cap_le, Hl|].
  destruct (String.eqb market "코스닥");
    [apply get_naver_top_cap_le, Hl|].
  destruct (get_naver_top_cap W "KOSPI" limit) as [df1|e]; cbn [bind];
    [|discriminate].
  destruct (get_naver_top_cap W "KOSDAQ" limit) as [df2|e]; cbn [bind];
    [|discriminate].
  intros E. apply Ok_inj in E. subst. apply len_head, Hl.
Qed.

(** For every segment the universe has at most [limit] instruments, and
    none when the limit is not positive. *)
Theorem universe_at_most_limit (W : world) (market : string) (limit : Z)
  (universe : list instrument) :
  fetch_universe W market limit = Ok universe -> len universe <= Z.max 0 limit.
Proof.
  intros Hu. destruct (Z.le_gt_cases 0 limit) as [Hl|Hl].
  - rewrite Z.max_r by exact Hl.
    apply (fetch_universe_le W market limit universe Hl Hu).
  - rewrite (universe_empty_without_limit W market limit) in Hu by lia.
    apply Ok_inj in Hu. subst universe. unfold len. simpl. lia.
Qed.

Lemma scan_pages_same (W W' : world) (n : nat) (sosok page limit : Z)
  (data : list instrument) :
  (forall p, page <= p < page + Z.of_nat n ->
     listing_response W sosok p = listing_response W' sosok p) ->
  scan_pages W n sosok page limit data = scan_pages W' n sosok page limit data.
Proof.
  revert page data. induction n as [|n IH]; intros page data H; simpl;
    [reflexivity|].
  destruct (len data <? limit); [|reflexivity].
  rewrite <- (H page) by lia.
  destruct (listing_response W sosok page) as [[| |trs]|e]; cbn [bind];
    try reflexivity.
  destruct (scan_rows trs limit data) as [data'|e]; cbn [bind]; [|reflexivity].
  apply IH. intros p Hp. apply H. lia.
Qed.

(** The listing of a market reads at most the pages 1 to 5: worlds that
    agree on them give the same result. *)
Theorem top_cap_reads_five_pages (W W' : world) (market : string) (limit : Z) :
  same_first_pages W W' ->
  get_naver_top_cap W market limit = get_naver_top_cap W' market limit.
Proof.
  intros H. unfold get_naver_top_cap. apply scan_pages_same.
  intros p Hp. apply H. simpl in Hp. lia.
Qed.

Lemma get_naver_top_cap_first_page_raises (W : world) (market : string)
  (limit : Z) (e : exn) :
  0 < limit ->
  listing_response W (if String.eqb market "KOSPI" then 0 else 1) 1 = Raise e ->
  get_naver_top_cap W market limit = Raise e.
Proof.
  intros Hl H. unfold get_naver_top_cap. simpl.
  replace (len (@nil instrument) <? limit) with true
    by (symmetry; apply Z.ltb_lt; unfold len; simpl; lia).
  rewrite H. reflexivity.
Qed.

(** A failure of the first request for the KOSPI listing is not caught:
    for the KOSPI segment and for the segment of all stocks the pipeline
    raises it, whatever the weights are. *)
Theorem listing_failure_aborts_run (W : world) (A : Argsort) (weights : pyval)
  (market : string) (limit : Z) (e : exn) :
  0 < limit ->
  listing_response W 0 1 = Raise e ->
  String.eqb market "ETF" = false ->
  String.eqb market "코스닥" = false ->
  score_and_recommend W A weights market limit = Raise e.
Proof.
  intros Hl H HE HK. unfold score_and_recommend, fetch_universe.
  rewrite HE, HK.
  rewrite (get_naver_top_cap_first_page_raises W "KOSPI" limit e Hl H).
  destruct (String.eqb market "코스피"); reflexivity.
Qed.

(** In the segment of all stocks the KOSDAQ listing is requested whatever
    the KOSPI listing gave: a failure of its first request is raised even
    when the KOSPI rows fill the limit; otherwise the KOSPI rows come
    first and in full, and the KOSDAQ rows fill the places that are
    left. *)
Theorem all_segment_kospi_first (W : world) (limit : Z)
  (df1 : list instrument) :
  0 < limit ->
  get_naver_top_cap W "KOSPI" limit = Ok df1 ->
  (forall e, listing_response W 1 1 = Raise e ->
     fetch_universe W "전체 종목" limit = Raise e)
  /\ (forall df2, get_naver_top_cap W "KOSDAQ" limit = Ok df2 ->
        fetch_universe W "전체 종목" limit
        = Ok (df1 ++ firstn (Z.to_nat (limit - len df1)) df2)).
Proof.
  intros Hl H1.
  assert (Hf : fetch_universe W "전체 종목" limit
               = (df2 <- get_naver_top_cap W "KOSDAQ" limit ;;
                  Ok (head limit (df1 ++ df2)))).
  { unfold fetch_universe. simpl String.eqb. cbv iota. rewrite H1.
    reflexivity. }
  split.
  - intros e He. rewrite Hf.
    rewrite (get_naver_top_cap_first_page_raises W "KOSDAQ" limit e Hl He).
    reflexivity.
  - intros df2 H2. rewrite Hf, H2. cbn [bind]. f_equal.
    pose proof (get_naver_top_cap_le W "KOSPI" limit df1 ltac:(lia) H1) as Hle.
    unfold head. destruct (0 <=? limit) eqn:E; [|apply Z.leb_gt in E; lia].
    rewrite firstn_app. unfold len in *.
    rewrite firstn_all2 by lia. f_equal. f_equal. lia.
Qed.

(** ** The sort of the fund list *)

Lemma insert_desc_perm (x : etf_item) (l : list etf_item) :
  Permutation (insert_desc x l) (x :: l).
Proof.
  induction l as [|y l IH]; simpl; [apply Permutation_refl|].
  destruct (market_sum x <? market_sum y).
  - eapply perm_trans; [apply perm_skip, IH | apply perm_swap].
  - apply Permutation_refl.
Qed.

Lemma insert_desc_sorted (x : etf_item) (l : list etf_item) :
  StronglySorted (fun a b => market_sum b <= market_sum a) l ->
  StronglySorted (fun a b => market_sum b <= market_sum a) (insert_desc x l).
Proof.
  induction 1 as [|y l Hs IH Hy]; simpl.
  - repeat constructor.
  - destruct (market_sum x <? market_sum y) eqn:E.
    + apply Z.ltb_lt in E. constructor; [exact IH|].
      eapply Permutation_Forall; [apply Permutation_sym, insert_desc_perm|].
      constructor; [lia | exact Hy].
    + apply Z.ltb_ge in E. constructor; [constructor; assumption|].
      constructor; [exact E|].
      eapply Forall_impl; [|exact Hy]. simpl. intros z Hz. lia.
Qed.

Lemma insert_desc_filter (k : Z) (x : etf_item) (l : list etf_item) :
  filter (fun i => market_sum i =? k) (insert_desc x l)
  = filter (fun i => market_sum i =? k) (x :: l).
Proof.
  induction l as [|y l IH]; [reflexivity|].
  cbn [insert_desc]. destruct (market_sum x <? market_sum y) eqn:E;
    [|reflexivity].
  apply Z.ltb_lt in E. cbn [filter] in *. rewrite IH.
  destruct (market_sum x =? k) eqn:Ex; [|reflexivity].
  apply Z.eqb_eq in Ex.
  replace (market_sum y =? k) with false; [reflexivity|].
  symmetry. apply Z.eqb_neq. lia.
Qed.

(** The fund list is sorted by descending market sum, and funds of equal
    market sum keep the order of the feed. *)
Theorem etf_sort_descending_stable (etf_list : list etf_item) :
  Permutation (sorted_desc etf_list) etf_list
  /\ StronglySorted (fun a b => market_sum b <= market_sum a)
       (sorted_desc etf_list)
  /\ forall k,
       filter (fun i => market_sum i =? k) (sorted_desc etf_list)
       = filter (fun i => market_sum i =? k) etf_list.
Proof.
  unfold sorted_desc. induction etf_list as [|x l (Hp & Hs & Hf)]; simpl.
  - repeat split; constructor.
  - split; [|split].
    + eapply perm_trans; [apply insert_desc_perm | apply perm_skip, Hp].
    + apply insert_desc_sorted, Hs.
    + intros k. rewrite insert_desc_filter. cbn [filter]. rewrite Hf.
      reflexivity.
Qed.

(** ** The size of the table and the weights *)

(** A returned table is not empty: it has one row for each instrument of
    the universe, at most [limit] rows, and its ranks count from 1
    without a gap. *)
Theorem table_row_per_instrument (W : world) (A : Argsort) (weights : pyval)
  (market : string) (limit : Z) (table : list (Z * row)) :
  score_and_recommend W A weights market limit = Ok table ->
  exists universe,
    fetch_universe W market limit = Ok universe /\
    List.length table = List.length universe /\
    0 < len table <= limit /\
    map fst table = map Z.of_nat (seq 1 (List.length table)).
Proof.
  intros Hrun. apply score_and_recommend_ok in Hrun.
  destruct Hrun as (universe & w_m & w_v & w_q & Hu & _ & Hne & Ht).
  cbv zeta in Ht. exists universe. split; [exact Hu|].
  assert (Hlen : List.length table = List.length universe).
  { subst table. rewrite length_reindex.
    erewrite Permutation_length;
      [|apply take_perm; rewrite <- (length_map row_final_score);
        apply nargsort_desc_perm].
    apply length_map. }
  assert (Hpos : (0 < List.length universe)%nat)
    by (destruct universe; [congruence | simpl; lia]).
  assert (Hle : len universe <= limit).
  { destruct (Z.le_gt_cases 0 limit) as [Hl|Hl];
      [apply (fetch_universe_le W market limit universe Hl Hu)|].
    rewrite (universe_empty_without_limit W market limit) in Hu by lia.
    apply Ok_inj in Hu. subst universe. simpl in Hpos. lia. }
  split; [exact Hlen|]. split; [unfold len in *; lia|].
  subst table. rewrite map_fst_reindex, length_reindex. reflexivity.
Qed.

(** A parsed value that is not an object is kept as the weights although
    the warning about equal weights is shown, and the pipeline then
    raises [AttributeError] once the universe is fetched. *)
Theorem non_object_weights_warn_then_fail (W : world) (A : Argsort)
  (parsed : pyval) (market : string) (limit : Z) (universe : list instrument) :
  is_dict parsed = false ->
  fetch_universe W market limit = Ok universe ->
  weights_of_block (Block (Ok parsed)) = (parsed, true)
  /\ score_and_recommend W A (fst (weights_of_block (Block (Ok parsed))))
       market limit = Raise AttributeError.
Proof.
  intros Hd Hu.
  assert (Hw : weights_of_block (Block (Ok parsed)) = (parsed, true))
    by (destruct parsed; try reflexivity; discriminate).
  split; [exact Hw|]. rewrite Hw. cbn [fst].
  unfold score_and_recommend. rewrite Hu. cbn [bind].
  destruct parsed; try reflexivity; discriminate.
Qed.

(** ** Tables without ties *)

Lemma StronglySorted_map {T U : Type} (R : U -> U -> Prop) (f : T -> U)
  (l : list T) :
  StronglySorted R (map f l) <-> StronglySorted (fun a b => R (f a) (f b)) l.
Proof.
  induction l as [|x l IH]; simpl; split; intros H; try constructor;
    inversion H; subst.
  - apply IH. assumption.
  - rewrite Forall_map in *. assumption.
  - apply IH. assumption.
  - rewrite Forall_map. assumption.
Qed.

Lemma strict_sorted_unique (key : nat -> F64.float) (l1 l2 : list nat) :
  StronglySorted (fun i j => F64.ltb (key j) (key i) = true) l1 ->
  StronglySorted (fun i j => desc_order (key i) (key j)) l2 ->
  Permutation l1 l2 -> l2 = l1.
Proof.
  intros H1. revert l2. induction H1 as [|a t1 Hs IH Ha]; intros l2 H2 Hp.
  - apply Permutation_nil in Hp. exact Hp.
  - destruct l2 as [|b t2]; [apply Permutation_sym, Permutation_nil in Hp;
                              discriminate|].
    assert (Hab : b = a).
    { destruct (Nat.eq_dec b a) as [E|E]; [exact E|exfalso].
      assert (Hb : In b t1).
      { assert (Hb : In b (a :: t1))
          by (eapply Permutation_in; [apply Permutation_sym, Hp | left; reflexivity]).
        destruct Hb as [Hb|Hb]; [congruence | exact Hb]. }
      assert (Ha2 : In a t2).
      { assert (Ha2 : In a (b :: t2))
          by (eapply Permutation_in; [exact Hp | left; reflexivity]).
        destruct Ha2 as [Ha2|Ha2]; [congruence | exact Ha2]. }
      rewrite Forall_forall in Ha. specialize (Ha b Hb).
      inversion H2 as [|? ? _ Hb2]; subst. rewrite Forall_forall in Hb2.
      specialize (Hb2 a Ha2). apply desc_order_spec in Hb2.
      destruct Hb2 as [_ Hle].
      assert (Hna : F64.is_nan (key a) = false).
      { unfold F64.ltb, SFltb in Ha. destruct (key b), (key a); simpl in *;
          try discriminate; reflexivity. }
      specialize (Hle Hna).
      unfold F64.ltb, F64.leb, SFltb, SFleb in *.
      rewrite (SFcompare_antisym (key b) (key a)) in Hle.
      destruct (SFcompare (key b) (key a)) as [[]|]; simpl in *; discriminate. }
    subst b. f_equal. apply IH.
    + inversion H2; assumption.
    + apply Permutation_cons_inv in Hp. exact Hp.
Qed.

(** When the final scores of a returned table are strictly decreasing (no
    two rows share a score), the table does not depend on the array sort:
    every sort that meets the library's description returns this table. *)
Theorem table_without_ties_unique (W : world) (A A' : Argsort) (weights : pyval)
  (market : string) (limit : Z) (table : list (Z * row)) :
  score_and_recommend W A weights market limit = Ok table ->
  strictly_decreasing (map (fun e => row_final_score (snd e)) table) ->
  score_and_recommend W A' weights market limit = Ok table.
Proof.
  intros Hrun Hstrict.
  pose proof Hrun as Hok. apply score_and_recommend_ok in Hok.
  destruct Hok as (universe & w_m & w_v & w_q & Hu & Hw & Hne & Ht).
  cbv zeta in Ht.
  unfold score_and_recommend. rewrite Hu, Hw. cbn [bind].
  set (data := map (score_row W w_m w_v w_q) universe) in *.
  unfold sort_values_final_desc.
  destruct data as [|r data'] eqn:Hdata;
    [destruct universe; [congruence | discriminate]|].
  rewrite <- Hdata in *. cbn [bind]. f_equal. subst table. f_equal. f_equal.
  set (keys := map row_final_score data) in *.
  apply (strict_sorted_unique (fun i => nth i keys F64.nan)).
  - apply (proj1 (StronglySorted_map (fun a b => F64.ltb b a = true)
                    (fun i => nth i keys F64.nan) _)).
    unfold strictly_decreasing in Hstrict.
    rewrite <- (map_map snd row_final_score), map_snd_reindex in Hstrict.
    rewrite (map_take row_final_score F64.nan) in Hstrict.
    + exact Hstrict.
    + unfold keys. rewrite <- (length_map row_final_score).
      apply nargsort_desc_bound.
  - apply (proj1 (StronglySorted_map desc_order
                    (fun i => nth i keys F64.nan) _)).
    apply nargsort_desc_sorted.
  - eapply perm_trans; [apply nargsort_desc_perm|].
    apply Permutation_sym, nargsort_desc_perm.
Qed.

(** ** The range of the upside bonus *)

Lemma digits2_pos_bound (p : positive) : Zpos p < 2 ^ Zpos (digits2_pos p).
Proof.
  induction p as [p IH|p IH|]; simpl digits2_pos;
    rewrite ?Pos2Z.inj_succ, ?Z.pow_succ_r by lia; lia.
Qed.

Lemma Zdigits2_bound (m : Z) : 0 <= m -> m < 2 ^ Zdigits2 m.
Proof.
  intros H. destruct m as [|p|p]; simpl; [lia | apply digits2_pos_bound | lia].
Qed.

Lemma Zdigits2_nonneg (m : Z) : 0 <= Zdigits2 m.
Proof. destruct m; simpl; lia. Qed.

Lemma shr_1_div2 (mrs : shr_record) :
  0 <= shr_m mrs -> shr_m (shr_1 mrs) = Z.div2 (shr_m mrs).
Proof.
  destruct mrs as [m r s]. simpl. destruct m as [|[p|p|]|p]; simpl; intros;
    try reflexivity; lia.
Qed.

Lemma iter_shr_1_shiftr (p : positive) (mrs : shr_record) :
  0 <= shr_m mrs ->
  shr_m (iter_pos shr_1 p mrs) = Z.shiftr (shr_m mrs) (Zpos p).
Proof.
  revert mrs. induction p as [p IH|p IH|]; intros mrs H; simpl iter_pos.
  - rewrite IH, IH, shr_1_div2, Z.div2_spec by
      (try apply (iter_pos_inv (fun r => 0 <= shr_m r) shr_1 shr_1_nonneg);
       try apply shr_1_nonneg; exact H).
    rewrite !Z.shiftr_shiftr by lia. f_equal. lia.
  - rewrite IH, IH by
      (try apply (iter_pos_inv (fun r => 0 <= shr_m r) shr_1 shr_1_nonneg);
       exact H).
    rewrite Z.shiftr_shiftr by lia. f_equal. lia.
  - rewrite shr_1_div2, Z.div2_spec by exact H. reflexivity.
Qed.

Lemma shr_fexp_bound (m e : Z) (l : location) :
  0 <= m -> shr_m (fst (shr_fexp F64.prec F64.emax m e l)) < 2 ^ F64.prec.
Proof.
  intros H. unfold shr_fexp.
  assert (Hrec : shr_m (shr_record_of_loc m l) = m) by (destruct l as [|[]]; reflexivity).
  pose proof (Zdigits2_bound m H) as Hd. pose proof (Zdigits2_nonneg m) as Hd0.
  set (n := fexp F64.prec F64.emax (Zdigits2 m + e) - e).
  assert (Hn : Zdigits2 m - F64.prec <= n) by (unfold n, fexp; lia).
  unfold shr. destruct n as [|p|p] eqn:En; cbn [fst].
  - rewrite Hrec. eapply Z.lt_le_trans; [exact Hd|].
    apply Z.pow_le_mono_r; lia.
  - rewrite iter_shr_1_shiftr by (rewrite Hrec; exact H).
    rewrite Hrec, Z.shiftr_div_pow2 by lia.
    apply Z.div_lt_upper_bound; [apply Z.pow_pos_nonneg; lia|].
    rewrite <- Z.pow_add_r by (unfold F64.prec; lia).
    eapply Z.lt_le_trans; [exact Hd|]. apply Z.pow_le_mono_r; lia.
  - rewrite Hrec. eapply Z.lt_le_trans; [exact Hd|].
    apply Z.pow_le_mono_r; lia.
Qed.

Lemma binary_round_aux_mantissa (s s' : bool) (m e : Z) (l : location)
  (m' : positive) (e' : Z) :
  0 <= m ->
  binary_round_aux F64.prec F64.emax s m e l = S754_finite s' m' e' ->
  Zpos m' < 2 ^ F64.prec.
Proof.
  intros H. unfold binary_round_aux.
  pose proof (shr_fexp_nonneg m e l H) as H1.
  destruct (shr_fexp F64.prec F64.emax m e l) as [mrs1 e1]. simpl in H1.
  pose proof (shr_fexp_bound _ e1 loc_Exact
                (round_nearest_even_nonneg _ (loc_of_shr_record mrs1) H1)) as H2.
  destruct (shr_fexp F64.prec F64.emax _ e1 loc_Exact) as [mrs2 e2].
  simpl in H2. destruct (shr_m mrs2) as [|p|p]; try discriminate.
  destruct (e2 <=? _); [|discriminate].
  intros E. injection E as _ <- _. exact H2.
Qed.

(** ** The bonus stays within its range *)

Lemma round_half_even_le (num den bound : Z) :
  0 < den -> 0 <= num -> num <= bound * den ->
  0 <= F64.round_half_even num den <= bound.
Proof.
  intros Hden Hnum Hb. unfold F64.round_half_even.
  pose proof (Z.div_eucl_eq num den ltac:(lia)) as Heq.
  pose proof (Z.mod_pos_bound num den Hden) as Hmod. unfold Z.modulo in Hmod.
  destruct (Z.div_eucl num den) as [k r].
  assert (Hk : 0 <= k) by nia.
  assert (Hkb : k <= bound) by nia.
  destruct (2 * r ?= den) eqn:C.
  - apply Z.compare_eq in C. destruct (Z.even k); nia.
  - lia.
  - apply Z.compare_gt_iff in C. nia.
Qed.

Lemma tenths_le_15 (n : positive) :
  Zpos n <= 150 ->
  F64.leb (F64.div (S754_finite false n 0) (S754_finite false 10 0))
          (F64.tenths 150) = true.
Proof.
  intros H.
  assert (Hall : forallb (fun k => F64.leb (F64.tenths (Z.of_nat k))
                                           (F64.tenths 150))
                   (seq 1 150) = true) by (vm_compute; reflexivity).
  rewrite forallb_forall in Hall.
  specialize (Hall (Pos.to_nat n)).
  rewrite positive_nat_Z in Hall. apply Hall. apply in_seq. lia.
Qed.

Lemma round1_le_15 (x : F64.float) (m : positive) (e : Z) :
  x = F64.mul (S754_finite false m e) (F64.tenths 150) ->
  F64.ltb x (F64.tenths 150) = true ->
  F64.leb (F64.round1 x) (F64.tenths 150) = true.
Proof.
  intros Hx Hlt.
  change (F64.tenths 150) with (S754_finite false 8444249301319680 (-49)) in *.
  unfold F64.mul, SFmul in Hx. simpl xorb in Hx.
  pose proof (binary_round_aux_not_negative
                (Zpos (m * 8444249301319680)) (e + -49) loc_Exact ltac:(lia))
    as Hs.
  rewrite <- Hx in Hs.
  destruct x as [sx|sx| |sx mx ex]; try discriminate.
  - destruct sx; reflexivity.
  - destruct sx; discriminate.
  - symmetry in Hx. pose proof Hx as Hm.
    apply binary_round_aux_mantissa in Hm; [|lia].
    simpl in Hs. destruct sx; [discriminate|]. clear Hx Hs.
    unfold F64.ltb, SFltb, SFcompare in Hlt.
    assert (Hex : ex < -49 \/ (ex = -49 /\ Zpos mx < 8444249301319680)).
    { destruct (Z.compare_spec ex (-49)) as [E|E|E]; try discriminate.
      - right. split; [exact E|].
        pose proof (Pos.compare_spec mx 8444249301319680) as Hc.
        unfold Pos.compare in Hc.
        destruct Hc as [Hc|Hc|Hc]; try discriminate. exact Hc.
      - left. exact E. }
    clear Hlt. unfold F64.round1.
    replace (0 <=? ex) with false by (symmetry; apply Z.leb_gt; lia).
    assert (Hr : 0 <= F64.round_half_even (10 * Zpos mx) (2 ^ (- ex)) <= 150).
    { apply round_half_even_le; [apply Z.pow_pos_nonneg; lia | lia|].
      unfold F64.prec in Hm.
      destruct Hex as [Hex|[-> Hmx]].
      - assert (2 ^ 50 <= 2 ^ (- ex)) by (apply Z.pow_le_mono_r; lia).
        change (2 ^ 53) with 9007199254740992 in Hm.
        change (2 ^ 50) with 1125899906842624 in H. lia.
      - change (2 ^ (- -49)) with 562949953421312. lia. }
    destruct (F64.round_half_even _ _) as [|n|n]; [reflexivity| |lia].
    apply tenths_le_15. lia.
Qed.

Lemma spec_upside_bonus_le_15 (up : F64.float) :
  F64.leb (spec_upside_bonus up) (F64.tenths 150) = true.
Proof.
  unfold spec_upside_bonus. destruct (F64.ltb F64.zero up) eqn:E; [|reflexivity].
  apply ltb_zero_not_negative in E. unfold F64.min.
  destruct (F64.ltb _ (F64.tenths 150)) eqn:Hlt; [|vm_compute; reflexivity].
  assert (H : not_negative (F64.div up (F64.tenths 300)) = true)
    by (apply (div_not_negative up); exact E).
  destruct (F64.div up (F64.tenths 300)) as [s|s| |s m e] eqn:Hd;
    try discriminate.
  - destruct s; reflexivity.
  - destruct s; [discriminate|]. vm_compute in Hlt. discriminate.
  - destruct s; [discriminate|].
    apply (round1_le_15 _ m e eq_refl Hlt).
Qed.

(** For every instrument, whatever its quote, the upside bonus of its row
    is a number from 0 to 15. *)
Theorem upside_bonus_range (W : world) (w_m w_v w_q : F64.float)
  (inst : instrument) :
  not_negative (row_upside_score (score_row W w_m w_v w_q inst)) = true
  /\ F64.leb (row_upside_score (score_row W w_m w_v w_q inst))
             (F64.tenths 150) = true.
Proof.
  destruct (score_row_spec W w_m w_v w_q inst) as (_ & _ & Hb & _).
  rewrite Hb. split;
    [apply spec_upside_bonus_not_negative | apply spec_upside_bonus_le_15].
Qed.

(** ** The listing in closed form *)

Lemma firstn_app_short {T : Type} (n : nat) (l1 l2 : list T) :
  (n <= List.length l1)%nat -> firstn n (l1 ++ l2) = firstn n l1.
Proof.
  intros H. rewrite firstn_app.
  replace (n - List.length l1)%nat with O by lia. simpl. apply app_nil_r.
Qed.

Lemma firstn_firstn_app {T : Type} (n : nat) (l r : list T) :
  firstn n (firstn n l ++ r) = firstn n (l ++ r).
Proof.
  destruct (Nat.le_gt_cases n (List.length l)) as [Hc|Hc].
  - rewrite !firstn_app_short; [rewrite firstn_firstn, Nat.min_id; reflexivity | exact Hc |].
    rewrite length_firstn. lia.
  - rewrite (firstn_all2 l) by lia. reflexivity.
Qed.

Lemma scan_rows_closed (trs : list tr) (limit : Z) (data : list instrument) :
  links_have_href trs -> len data < limit ->
  scan_rows trs limit data
  = Ok (firstn (Z.to_nat limit) (data ++ page_instruments trs)).
Proof.
  intros Hh. revert data. induction Hh as [|row trs Hrow _ IH]; intros data Hlt.
  - simpl. rewrite app_nil_r, firstn_all2; [reflexivity | unfold len in Hlt; lia].
  - simpl. destruct (2 <? tds row)%nat eqn:E; [|apply IH, Hlt].
    apply Nat.ltb_lt in E.
    destruct (td1_a row) as [a|] eqn:Ea; [|apply IH, Hlt].
    destruct (a_href a) as [href|] eqn:Eh;
      [|exfalso; exact (Hrow E a eq_refl Eh)].
    set (x := {| Ticker := split_code_last href; Name := strip (a_text a) |}).
    assert (Hlen : len (data ++ [x]) = len data + 1)
      by (unfold len; rewrite length_app; simpl; lia).
    replace (data ++ x :: page_instruments trs)
      with ((data ++ [x]) ++ page_instruments trs)
      by (rewrite <- app_assoc; reflexivity).
    destruct (limit <=? len (data ++ [x])) eqn:El.
    + apply Z.leb_le in El. f_equal.
      rewrite firstn_app_short by (unfold len in *; lia).
      rewrite firstn_all2; [reflexivity | unfold len in *; lia].
    + apply Z.leb_gt in El. apply IH. exact El.
Qed.

Lemma scan_pages_closed (W : world) (pages : Z -> listing_page) (n : nat)
  (sosok page limit : Z) (data : list instrument) :
  (forall p, page <= p < page + Z.of_nat n ->
     listing_response W sosok p = Ok (pages p) /\ page_well_formed (pages p)) ->
  len data <= limit ->
  scan_pages W n sosok page limit data
  = Ok (firstn (Z.to_nat limit)
          (data ++ rows_until_gap
                     (map (fun k => pages (page + Z.of_nat k)) (seq 0 n)))).
Proof.
  revert page data. induction n as [|n IH]; intros page data H Hle.
  - simpl. rewrite app_nil_r, firstn_all2; [reflexivity | unfold len in Hle; lia].
  - cbn [scan_pages]. destruct (len data <? limit) eqn:Hlt.
    + apply Z.ltb_lt in Hlt.
      destruct (H page ltac:(lia)) as [Hp Hh]. rewrite Hp. cbn [bind].
      cbn [seq map]. rewrite Z.add_0_r.
      destruct (pages page) as [| |trs]; cbn [rows_until_gap].
      * rewrite app_nil_r, firstn_all2; [reflexivity | unfold len in Hle; lia].
      * destruct Hh.
      * rewrite (scan_rows_closed _ _ _ Hh Hlt). cbn [bind].
        rewrite IH.
        -- f_equal. rewrite <- seq_shift, map_map.
           rewrite (map_ext (fun k => pages (page + 1 + Z.of_nat k))
                            (fun k => pages (page + Z.of_nat (S k)))).
           2:{ intros k. f_equal. lia. }
           rewrite firstn_firstn_app, <- app_assoc. reflexivity.
        -- intros p Hp'. apply H. lia.
        -- unfold len in *. rewrite length_firstn. lia.
    + apply Z.ltb_ge in Hlt. f_equal. symmetry.
      rewrite firstn_app_short by (unfold len in *; lia).
      apply firstn_all2. unfold len in *. lia.
Qed.

(** When the pages 1 to 5 of a market are read without an exception, the
    listing is made of the first [limit] linked rows of the pages that
    come before the first page without a table, in the order of the
    pages. *)
Theorem top_cap_first_rows (W : world) (pages : Z -> listing_page)
  (market : string) (limit : Z) :
  (forall p, 1 <= p <= 5 ->
     listing_response W (if String.eqb market "KOSPI" then 0 else 1) p
       = Ok (pages p) /\
     page_well_formed (pages p)) ->
  get_naver_top_cap W market limit
  = Ok (firstn (Z.to_nat limit)
          (rows_until_gap (map pages [1; 2; 3; 4; 5]))).
Proof.
  intros H. unfold get_naver_top_cap.
  destruct (Z.le_gt_cases 0 limit) as [Hl|Hl].
  - rewrite (scan_pages_closed W pages); [reflexivity | | unfold len; simpl; lia].
    intros p Hp. apply H. simpl in Hp. lia.
  - rewrite scan_pages_nonpos by lia.
    replace (Z.to_nat limit) with O by lia. reflexivity.
Qed.

(** ** The tunnel, links and quotes *)

Lemma contains_label (message : string) :
  contains "Error" ("ngrok 연결 에러: " ++ message) = contains "Error" message.
Proof. reflexivity. Qed.

(** A failed connection is shown in the error box only when the text of
    the exception holds the word [Error]; otherwise its text is shown in
    the success box, after the words that announce a URL. *)
Theorem connection_failure_box (message : string) :
  ngrok_status (init_ngrok (ConnectFailed message)) =
    if contains "Error" message
    then error_box ("ngrok 연결 에러: " ++ message)
    else success_box ("생성 완료:" ++ newline ++ newline ++
                      "ngrok 연결 에러: " ++ message).
Proof.
  unfold ngrok_status, init_ngrok. rewrite contains_label.
  destruct (contains "Error" message); reflexivity.
Qed.

Lemma after_last_none (sep s : string) :
  sep <> EmptyString -> contains sep s = false -> after_last sep s = None.
Proof.
  intros Hs. induction s as [|c s IH]; intros H; [reflexivity|].
  cbn [after_last]. 
  assert (H' : strip_prefix sep (String c s) = None /\ contains sep s = false).
  { destruct sep as [|a sep]; [congruence|].
    cbn [contains] in H.
    destruct (strip_prefix (String a sep) (String c s)); [discriminate|].
    split; [reflexivity | exact H]. }
  destruct H' as [Hp Hc]. rewrite (IH Hc). exact Hp.
Qed.

Lemma after_last_app (pre t : string) :
  after_last "code=" t = None ->
  after_last "code=" (pre ++ "code=" ++ t) = Some t.
Proof.
  intros H. induction pre as [|c pre IH].
  - cbn [append after_last]. rewrite H. reflexivity.
  - cbn [append after_last]. cbn [append] in IH. rewrite IH. reflexivity.
Qed.

(** The ticker read from a link is the text after [code=]: for a link
    that ends in [code=] and a ticker, and in particular for the address
    of the quote page of the ticker, the loop reads this ticker back. *)
Theorem ticker_of_link (pre ticker : string) :
  contains "code=" ticker = false ->
  split_code_last (pre ++ "code=" ++ ticker) = ticker
  /\ split_code_last (quote_url ticker) = ticker.
Proof.
  intros H. apply after_last_none in H; [|discriminate].
  split.
  - unfold split_code_last. rewrite (after_last_app pre ticker H). reflexivity.
  - unfold split_code_last, quote_url.
    change ("https://finance.naver.com/item/main.naver?code=" ++ ticker)%string
      with ("https://finance.naver.com/item/main.naver?" ++ "code=" ++ ticker)%string.
    rewrite (after_last_app _ ticker H). reflexivity.
Qed.

Lemma fetch_universe_same (W W' : world) (market : string) (limit : Z) :
  same_listings W W' ->
  fetch_universe W market limit = fetch_universe W' market limit.
Proof.
  intros [Hl He].
  assert (Ht : forall m, get_naver_top_cap W m limit = get_naver_top_cap W' m limit).
  { intros m. unfold get_naver_top_cap. apply scan_pages_same.
    intros p _. apply Hl. }
  unfold fetch_universe, get_naver_etf_top_cap.
  rewrite He, !Ht. reflexivity.
Qed.

Lemma table_tickers_perm (W : world) (A : Argsort) (weights : pyval)
  (market : string) (limit : Z) (table : list (Z * row))
  (universe : list instrument) :
  score_and_recommend W A weights market limit = Ok table ->
  fetch_universe W market limit = Ok universe ->
  Permutation (table_tickers table) (map Ticker universe).
Proof.
  intros Hrun Hu. apply score_and_recommend_ok in Hrun.
  destruct Hrun as (universe' & w_m & w_v & w_q & Hu' & _ & _ & Ht).
  rewrite Hu in Hu'. apply Ok_inj in Hu'. subst universe'.
  cbv zeta in Ht. unfold table_tickers.
  rewrite <- (map_map snd row_ticker). subst table. rewrite map_snd_reindex.
  eapply perm_trans.
  - apply Permutation_map, take_perm.
    rewrite <- (length_map row_final_score). apply nargsort_desc_perm.
  - rewrite map_map. apply Permutation_refl.
Qed.

(** The quotes never decide whether the run succeeds nor which
    instruments it ranks: in two worlds with the same listings and any
    quotes, the pipeline raises the same exceptions, and two returned
    tables hold the same tickers. *)
Theorem quotes_never_abort (W W' : world) (A A' : Argsort) (weights : pyval)
  (market : string) (limit : Z) :
  same_listings W W' ->
  (forall e, score_and_recommend W A weights market limit = Raise e
             <-> score_and_recommend W' A' weights market limit = Raise e)
  /\ (forall table table',
        score_and_recommend W A weights market limit = Ok table ->
        score_and_recommend W' A' weights market limit = Ok table' ->
        Permutation (table_tickers table) (table_tickers table')).
Proof.
  intros Hs. pose proof (fetch_universe_same W W' market limit Hs) as Hf.
  split.
  - intros e. unfold score_and_recommend. rewrite <- Hf.
    destruct (fetch_universe W market limit) as [universe|e0]; cbn [bind];
      [|reflexivity].
    destruct (weight_fractions weights) as [[[w_m w_v] w_q]|e0]; cbn [bind];
      [|reflexivity].
    unfold sort_values_final_desc.
    destruct universe as [|inst universe]; cbn [map bind]; [reflexivity|].
    split; discriminate.
  - intros table table' H H'.
    destruct (fetch_universe W market limit) as [universe|e0] eqn:Hu.
    + eapply perm_trans;
        [apply (table_tickers_perm W A weights market limit table universe H Hu)|].
      apply Permutation_sym.
      apply (table_tickers_perm W' A' weights market limit table' universe H').
      rewrite <- Hf. reflexivity.
    + unfold score_and_recommend in H. rewrite Hu in H. discriminate.
Qed.

(** ** The properties on the sample data *)

Lemma links_have_href_kospi_page : links_have_href kospi_page.
Proof.
  unfold links_have_href, kospi_page.
  repeat (apply Forall_cons;
          [intros _ a Ha; simpl in Ha;
           first [discriminate Ha | injection Ha as <-; discriminate]|]).
  apply Forall_nil.
Qed.

(** The bound of the universe on the KOSDAQ segment of the sample world
    with a limit of four. *)
Lemma universe_at_most_limit_witness :
  fetch_universe sample_world "코스닥" 4
  = Ok [{| Ticker := "247540"; Name := "EcoPro BM" |};
        {| Ticker := "086520"; Name := "EcoPro" |};
        {| Ticker := "091990"; Name := "Celltrion Healthcare" |};
        {| Ticker := "022100"; Name := "POSCO DX" |}]%string
  /\ len [{| Ticker := "247540"; Name := "EcoPro BM" |};
          {| Ticker := "086520"; Name := "EcoPro" |};
          {| Ticker := "091990"; Name := "Celltrion Healthcare" |};
          {| Ticker := "022100"; Name := "POSCO DX" |}]%string <= Z.max 0 4.
Proof.
  split; [vm_compute; reflexivity|].
  apply (universe_at_most_limit sample_world "코스닥" 4).
  vm_compute. reflexivity.
Defined.

(** The sample world and the world whose pages after the fifth cannot be
    fetched give the same listing. *)
Lemma top_cap_reads_five_pages_witness :
  same_first_pages sample_world world_of_five_pages
  /\ get_naver_top_cap sample_world "KOSPI" 20
     = get_naver_top_cap world_of_five_pages "KOSPI" 20.
Proof.
  assert (H : same_first_pages sample_world world_of_five_pages).
  { intros sosok page Hp. unfold world_of_five_pages. cbn [listing_response].
    destruct (5 <? page) eqn:E; [apply Z.ltb_lt in E; lia | reflexivity]. }
  split; [exact H|].
  apply (top_cap_reads_five_pages sample_world world_of_five_pages "KOSPI" 20 H).
Defined.

(** The KOSPI listing of the sample world, whose second page has no
    table, with a limit of three. *)
Lemma top_cap_first_rows_witness :
  get_naver_top_cap sample_world "KOSPI" 3
  = Ok (firstn 3 (rows_until_gap (map sample_kospi_pages [1; 2; 3; 4; 5])))
  /\ List.length (rows_until_gap (map sample_kospi_pages [1; 2; 3; 4; 5]))
     = 10%nat.
Proof.
  split; [|reflexivity].
  apply (top_cap_first_rows sample_world sample_kospi_pages "KOSPI" 3).
  intros p Hp. unfold sample_kospi_pages. cbn [String.eqb Ascii.eqb Bool.eqb].
  cbn [sample_world listing_response].
  destruct (p =? 1); split; try reflexivity.
  exact links_have_href_kospi_page.
Defined.

(** A KOSPI run in the world without listings. *)
Lemma listing_failure_aborts_run_witness :
  score_and_recommend world_without_listings stable_argsort sample_weights
    "코스피" 10 = Raise RequestException.
Proof.
  apply (listing_failure_aborts_run world_without_listings stable_argsort
           sample_weights "코스피" 10 RequestException);
    [lia | reflexivity | reflexivity | reflexivity].
Defined.

(** The segment of all stocks of the sample world with a limit of three:
    the KOSPI rows fill it, and the KOSDAQ listing is read all the same. *)
Lemma all_segment_kospi_first_witness :
  get_naver_top_cap sample_world "KOSPI" 3 = Ok (firstn 3 sample_universe)
  /\ (forall e, listing_response sample_world 1 1 = Raise e ->
        fetch_universe sample_world "전체 종목" 3 = Raise e)
  /\ (forall df2, get_naver_top_cap sample_world "KOSDAQ" 3 = Ok df2 ->
        fetch_universe sample_world "전체 종목" 3
        = Ok (firstn 3 sample_universe
              ++ firstn (Z.to_nat (3 - len (firstn 3 sample_universe))) df2)).
Proof.
  assert (H : get_naver_top_cap sample_world "KOSPI" 3
              = Ok (firstn 3 sample_universe)) by (vm_compute; reflexivity).
  split; [exact H|].
  apply (all_segment_kospi_first sample_world 3 (firstn 3 sample_universe));
    [lia | exact H].
Defined.

(** The sample table has the twenty rows of the sample universe. *)
Lemma table_row_per_instrument_witness :
  exists universe,
    fetch_universe sample_world "전체 종목" 20 = Ok universe /\
    List.length sample_table = List.length universe /\
    0 < len sample_table <= 20 /\
    map fst sample_table = map Z.of_nat (seq 1 (List.length sample_table)).
Proof.
  apply (table_row_per_instrument sample_world stable_argsort sample_weights
           "전체 종목" 20 sample_table).
  vm_compute. reflexivity.
Defined.

(** A block that holds a JSON array, on the KOSPI segment of the sample
    world. *)
Lemma non_object_weights_warn_then_fail_witness :
  weights_of_block (Block (Ok weights_as_array)) = (weights_as_array, true)
  /\ score_and_recommend sample_world stable_argsort
       (fst (weights_of_block (Block (Ok weights_as_array)))) "코스피" 3
     = Raise AttributeError.
Proof.
  apply (non_object_weights_warn_then_fail sample_world stable_argsort
           weights_as_array "코스피" 3 (firstn 3 sample_universe));
    [reflexivity | vm_compute; reflexivity].
Defined.

(** The KOSPI table of the sample world has no tie: the sort that
    reverses ties gives this table too. *)
Lemma table_without_ties_unique_witness :
  score_and_recommend sample_world reversing_argsort sample_weights "코스피" 10
  = Ok kospi_table.
Proof.
  apply (table_without_ties_unique sample_world stable_argsort reversing_argsort
           sample_weights "코스피" 10 kospi_table).
  - vm_compute. reflexivity.
  - unfold strictly_decreasing.
    assert (E : map (fun e => row_final_score (snd e)) kospi_table
                = [F64.tenths 980; F64.tenths 869; F64.tenths 790;
                   F64.tenths 789; F64.tenths 770; F64.tenths 767;
                   F64.tenths 716; F64.tenths 605; F64.tenths 532;
                   F64.tenths 511]) by (vm_compute; reflexivity).
    rewrite E.
    repeat (apply SSorted_cons;
            [|repeat (apply Forall_cons; [vm_compute; reflexivity|]);
              apply Forall_nil]).
    apply SSorted_nil.
Defined.

(** The link of a row of the sample listing and the address of the quote
    page of its ticker. *)
Lemma ticker_of_link_witness :
  split_code_last ("/item/main.naver?" ++ "code=" ++ "005930") = "005930"%string
  /\ split_code_last (quote_url "005930") = "005930"%string.
Proof.
  apply (ticker_of_link "/item/main.naver?" "005930"). reflexivity.
Defined.

(** The sample world with and without its quotes, under two sorts. *)
Lemma quotes_never_abort_witness :
  (forall e,
     score_and_recommend sample_world stable_argsort sample_weights
       "전체 종목" 20 = Raise e
     <-> score_and_recommend world_without_quotes reversing_argsort
           sample_weights "전체 종목" 20 = Raise e)
  /\ (forall table table',
        score_and_recommend sample_world stable_argsort sample_weights
          "전체 종목" 20 = Ok table ->
        score_and_recommend world_without_quotes reversing_argsort
          sample_weights "전체 종목" 20 = Ok table' ->
        Permutation (table_tickers table) (table_tickers table')).
Proof.
  apply (quotes_never_abort sample_world world_without_quotes stable_argsort
           reversing_argsort sample_weights "전체 종목" 20).
  split; [intros sosok page; reflexivity | reflexivity].
Defined.
